(** * Microsoft 365 Mail channel: inbound admission and reply dispatch

    A shallow embedding of [handleIncomingMail] and the plugin hooks of
    [extensions/microsoft365/src/channel.ts] that decide whether an inbound
    mail reaches the agent. *)

From Stdlib Require Import String Ascii List Bool Arith ZArith Lia.
Import ListNotations.
Open Scope list_scope.
Open Scope string_scope.
Open Scope nat_scope.

(** ** JavaScript string primitives on 8-bit code units *)

(** [String.prototype.trim] strips WhiteSpace and LineTerminator code units;
    among the code units 0..255 these are TAB, LF, VT, FF, CR, SPACE, NBSP. *)
Definition is_js_space (c : ascii) : bool :=
  match nat_of_ascii c with
  | 9 | 10 | 11 | 12 | 13 | 32 | 160 => true
  | _ => false
  end.

Fixpoint drop_spaces (l : list ascii) : list ascii :=
  match l with
  | [] => []
  | c :: r => if is_js_space c then drop_spaces r else l
  end.

Definition trim (s : string) : string :=
  string_of_list_ascii
    (rev (drop_spaces (rev (drop_spaces (list_ascii_of_string s))))).

(** [String.prototype.toLowerCase] on code units 0..255: A-Z and the Latin-1
    capitals (except the multiplication sign 215) move up by 32. *)
Definition js_lower_char (c : ascii) : ascii :=
  let n := nat_of_ascii c in
  if ((65 <=? n) && (n <=? 90)) || ((192 <=? n) && (n <=? 222) && negb (n =? 215))
  then ascii_of_nat (n + 32) else c.

Definition toLowerCase (s : string) : string :=
  string_of_list_ascii (map js_lower_char (list_ascii_of_string s)).

(** JavaScript truthiness of a string: only the empty string is falsy. *)
Definition truthy (s : string) : bool := negb (String.eqb s EmptyString).

(** [xs.map(e => String(e).trim().toLowerCase()).filter(Boolean)] *)
Definition normalizeList (xs : list string) : list string :=
  filter truthy (map (fun e => toLowerCase (trim e)) xs).

(** ** Configuration and inbound message *)

Inductive DmPolicy := Open | Pairing | Allowlist.

Definition DmPolicy_name (p : DmPolicy) : string :=
  match p with Open => "open" | Pairing => "pairing" | Allowlist => "allowlist" end.

(** The fields of [Microsoft365Config] the admission path reads. *)
Record Microsoft365Config := {
  allowFrom : option (list string);
  dmPolicy : option DmPolicy;
}.

(** [cfg.channels?.microsoft365] *)
Definition OpenClawConfig := option Microsoft365Config.

Record EmailAddress := { address : option string; name : option string }.
Record Recipient := { emailAddress : option EmailAddress }.

Record GraphMailMessage := {
  id : string;
  from : option Recipient;
  subject : option string;
  bodyPreview : option string;
}.

(** [message.from?.emailAddress?.address] *)
Definition from_address (m : GraphMailMessage) : option string :=
  match from m with
  | Some r => match emailAddress r with Some e => address e | None => None end
  | None => None
  end.

Definition from_name (m : GraphMailMessage) : option string :=
  match from m with
  | Some r => match emailAddress r with Some e => name e | None => None end
  | None => None
  end.

(** [message.from?.emailAddress?.address?.toLowerCase()] *)
Definition fromEmailOf (m : GraphMailMessage) : option string :=
  option_map toLowerCase (from_address m).

Definition CHANNEL_ID : string := "microsoft365".

(** [m365?.dmPolicy ?? "pairing"] *)
Definition resolveDmPolicy (m365 : OpenClawConfig) : DmPolicy :=
  match m365 with
  | Some c => match dmPolicy c with Some p => p | None => Pairing end
  | None => Pairing
  end.

(** [m365?.allowFrom ?? []] *)
Definition configAllowFromRaw (m365 : OpenClawConfig) : list string :=
  match m365 with
  | Some c => match allowFrom c with Some l => l | None => [] end
  | None => []
  end.

(** A string wrapped in double quotes. *)
Definition dq (s : string) : string :=
  String (ascii_of_nat 34) (s ++ String (ascii_of_nat 34) EmptyString).

(** [security.collectWarnings] *)
Definition collectWarnings (m365 : OpenClawConfig) : list string :=
  match resolveDmPolicy m365 with
  | Open => ["- Microsoft 365 Mail: dmPolicy=" ++ dq "open" ++
             " allows anyone to send emails that trigger the agent. Consider using "
             ++ dq "pairing" ++ " or " ++ dq "allowlist" ++ "."]
  | _ => []
  end.

(** [effectiveAllowFrom.some(entry => entry === fromEmail || entry === "*")] *)
Definition senderAllowed (effectiveAllowFrom : list string) (fromEmail : string) : bool :=
  existsb (fun entry => String.eqb entry fromEmail || String.eqb entry "*")
    effectiveAllowFrom.

(** [pairing.normalizeAllowEntry] *)
Definition normalizeAllowEntry (entry : string) : string := trim (toLowerCase entry).

(** ** Observable effects, collaborators and the handler monad *)

Inductive LogLevel := Info | Warn | Error.

Inductive ReplyKind := Tool | Block | Final.

Definition ReplyKind_name (k : ReplyKind) : string :=
  match k with Tool => "tool" | Block => "block" | Final => "final" end.

(** A reply payload produced by the agent: [{ text?, kind }]. *)
Record ReplyPayload := { text : option string; kind : ReplyKind }.

Inductive effect :=
  | ELog (lvl : LogLevel) (msg : string)
  | EReadAllowFromStore (channel : string)
  | EUpsertPairing (channel idv code : string) (created : bool)
  | EReplyToMail (messageId body : string)
  | EMarkAsRead (messageId : string)
  | EInboundDrop (channel reason target : string)
  | ERecordSession (sessionKey : string)
  | EAgentDispatch (sessionKey : string).

(** A stored pairing request. *)
Record PairingRequest := {
  pr_channel : string; pr_id : string; pr_code : string; pr_name : option string }.

(** Mutable world: the pairing store, the code generator and the number of
    Graph [replyToMail] calls issued so far. *)
Record St := { requests : list PairingRequest; nextCode : nat; sends : nat }.

(** The collaborators' behaviour, fixed for one run. *)
Record Env := {
  env_store : option (list string);   (* [readAllowFromStore]: resolves or rejects *)
  env_creds : bool;                   (* [resolveCredentials(m365)?.refreshToken] truthy *)
  env_sendFails : nat -> bool;        (* the k-th [replyToMail] call throws *)
  env_markReadFails : bool;           (* [markAsRead] throws *)
  env_recordFails : bool;             (* the session write of [recordInboundSession] fails *)
  env_agentReply : list ReplyPayload; (* payloads the agent produces *)
  env_sessionKey : string -> string;  (* [resolveAgentRoute(...).sessionKey] for a peer *)
}.

Inductive res (A : Type) := Ok (a : A) | Throw (err : string).
Arguments Ok {A} a.
Arguments Throw {A} err.

(** State, exceptions, and an effect log. *)
Definition M (A : Type) := St -> res A * list effect * St.

Definition ret {A} (a : A) : M A := fun s => (Ok a, [], s).

Definition bind {A B} (m : M A) (k : A -> M B) : M B := fun s =>
  match m s with
  | (Ok a, w1, s1) => let '(r, w2, s2) := k a s1 in (r, app w1 w2, s2)
  | (Throw e, w1, s1) => (Throw e, w1, s1)
  end.

Definition throw {A} (e : string) : M A := fun s => (Throw e, [], s).

(** [try { m } catch (err) { h(err) }] *)
Definition catch {A} (m : M A) (h : string -> M A) : M A := fun s =>
  match m s with
  | (Throw e, w1, s1) => let '(r, w2, s2) := h e s1 in (r, app w1 w2, s2)
  | x => x
  end.

Definition emit (e : effect) : M unit := fun s => (Ok tt, [e], s).

Definition log (lvl : LogLevel) (msg : string) : M unit := emit (ELog lvl msg).

Notation "x <- m ;; k" := (bind m (fun x => k)) (at level 61, m at next level, right associativity).
Notation "m ;;; k" := (bind m (fun _ : unit => k)) (at level 61, right associativity).

Definition GRAPH_ERROR : string := "GraphError".
Definition STORE_ERROR : string := "StoreError".
Definition SESSION_ERROR : string := "SessionWriteError".

(** Distinct opaque pairing codes. *)
Definition gen_code (n : nat) : string :=
  "CODE-" ++ string_of_list_ascii (repeat "7"%char n).

Fixpoint find_request (ch idv : string) (reqs : list PairingRequest) : option string :=
  match reqs with
  | [] => None
  | r :: rest =>
      if String.eqb (pr_channel r) ch && String.eqb (pr_id r) idv
      then Some (pr_code r) else find_request ch idv rest
  end.

(** Modelled from the spec: [core.channel.pairing.upsertPairingRequest] of the
    plugin SDK. A pending request for (channel, id) returns its code with
    [created = false]; otherwise a new code is generated and stored. *)
Definition upsertPairingRequest (ch idv : string) (nm : option string) : M (string * bool) :=
  fun s =>
    match find_request ch idv (requests s) with
    | Some c => (Ok (c, false), [EUpsertPairing ch idv c false], s)
    | None =>
        let c := gen_code (nextCode s) in
        (Ok (c, true), [EUpsertPairing ch idv c true],
         {| requests := app (requests s)
                          [{| pr_channel := ch; pr_id := idv; pr_code := c; pr_name := nm |}];
            nextCode := S (nextCode s); sends := sends s |})
    end.

(** Modelled from the spec: [core.channel.pairing.buildPairingReply], pure
    formatting of the instructions. *)
Definition buildPairingReply (ch idLine code : string) : string :=
  "OpenClaw: access not configured. " ++ idLine ++ " Pairing code: " ++ code ++
  " Ask the owner to approve with: openclaw pairing approve " ++ ch ++ " " ++ code.

(** Modelled from the spec: [logInboundDrop] emits one structured drop record. *)
Definition logInboundDrop (ch reason target : string) : M unit :=
  emit (EInboundDrop ch reason target).

Section Handler.

Variable env : Env.

(** [client.replyToMail(messageId, text)]: issues the Graph call, which throws
    when the transport fails. *)
Definition replyToMail (messageId body : string) : M unit := fun s =>
  let k := sends s in
  let s' := {| requests := requests s; nextCode := nextCode s; sends := S k |} in
  if env_sendFails env k
  then (Throw GRAPH_ERROR, [EReplyToMail messageId body], s')
  else (Ok tt, [EReplyToMail messageId body], s').

(** [client.markAsRead(messageId)] *)
Definition markAsRead (messageId : string) : M unit :=
  emit (EMarkAsRead messageId) ;;;
  if env_markReadFails env then throw GRAPH_ERROR else ret tt.

(** [core.channel.pairing.readAllowFromStore(channel)] *)
Definition readAllowFromStore (ch : string) : M (list string) :=
  emit (EReadAllowFromStore ch) ;;;
  match env_store env with
  | Some l => ret l
  | None => throw STORE_ERROR
  end.

(** Modelled from the spec: [core.channel.session.recordInboundSession], a
    best-effort write whose failure goes to [onRecordError] and never throws.
    The [onRecordError] callback of lines 489-491 logs the error. *)
Definition recordInboundSession (sessionKey : string) : M unit :=
  emit (ERecordSession sessionKey) ;;;
  if env_recordFails env
  then log Error ("microsoft365: failed updating session meta: " ++ SESSION_ERROR)
  else ret tt.

(** The [deliver] callback passed to the dispatcher. *)
Definition deliver (message : GraphMailMessage) (payload : ReplyPayload) : M unit :=
  let body := match text payload with Some t => t | None => EmptyString end in
  if negb (truthy (trim body)) then ret tt
  else if negb (env_creds env)
  then log Error "microsoft365: cannot reply, missing refreshToken"
  else replyToMail (id message) body.

(** The [onError] callback passed to the dispatcher. *)
Definition onError (err : string) (k : ReplyKind) : M unit :=
  log Error ("microsoft365 " ++ ReplyKind_name k ++ " reply failed: " ++ err).

(** Modelled from the spec: the per-payload loop of
    [dispatchReplyWithBufferedBlockDispatcher]. Payloads are delivered in
    order, each awaited; a delivery that throws is reported to [onError] with
    the payload's kind and the loop goes on. *)
Fixpoint dispatchPayloads (dlv : ReplyPayload -> M unit)
    (onErr : string -> ReplyKind -> M unit) (ps : list ReplyPayload) : M unit :=
  match ps with
  | [] => ret tt
  | p :: rest =>
      catch (dlv p) (fun err => onErr err (kind p)) ;;;
      dispatchPayloads dlv onErr rest
  end.

(** Modelled from the spec: [dispatchReplyWithBufferedBlockDispatcher] invokes
    the agent on the session and dispatches the payloads it produces. *)
Definition dispatchReplyWithBufferedBlockDispatcher (sessionKey : string)
    (dlv : ReplyPayload -> M unit) (onErr : string -> ReplyKind -> M unit) : M unit :=
  emit (EAgentDispatch sessionKey) ;;;
  dispatchPayloads dlv onErr (env_agentReply env).

(** Lines 382-405: the pairing challenge for a sender that is not allowed. *)
Definition pairingChallenge (message : GraphMailMessage) (fromEmail : string) : M unit :=
  let fromName := match from_name message with
                  | Some n => if truthy n then Some n else None
                  | None => None end in
  p <- upsertPairingRequest CHANNEL_ID fromEmail fromName ;;
  let '(code, created) := p in
  if created then
    catch
      (if env_creds env then
         replyToMail (id message)
           (buildPairingReply CHANNEL_ID ("Your email address: " ++ fromEmail) code)
       else ret tt)
      (fun err => log Error ("microsoft365: pairing reply failed for " ++ fromEmail
                             ++ ": " ++ err))
  else ret tt.

(** Lines 417-517: the path of an admitted message. *)
Definition admitAndDispatch (message : GraphMailMessage) (fromEmail : string) : M unit :=
  catch (if env_creds env then markAsRead (id message) else ret tt)
    (fun err => log Warn ("microsoft365: failed to mark message as read: " ++ err)) ;;;
  let sessionKey := env_sessionKey env fromEmail in
  recordInboundSession sessionKey ;;;
  dispatchReplyWithBufferedBlockDispatcher sessionKey (deliver message) onError.

(** [handleIncomingMail] *)
Definition handleIncomingMail (m365 : OpenClawConfig) (message : GraphMailMessage) : M unit :=
  let subj := match subject message with Some s => s | None => "(no subject)" end in
  match fromEmailOf message with
  | Some fromEmail =>
      if negb (truthy fromEmail)
      then log Warn "microsoft365: dropping message with no sender address"
      else
        log Info ("Incoming email from " ++ fromEmail ++ ": " ++ subj) ;;;
        let dm := resolveDmPolicy m365 in
        let configAllowFrom := normalizeList (configAllowFromRaw m365) in
        storeAllowFrom <- catch (readAllowFromStore CHANNEL_ID) (fun _ => ret []) ;;
        let storeAllowList := normalizeList storeAllowFrom in
        let effectiveAllowFrom := app configAllowFrom storeAllowList in
        match dm with
        | Open => admitAndDispatch message fromEmail
        | _ =>
            if senderAllowed effectiveAllowFrom fromEmail
            then admitAndDispatch message fromEmail
            else
              (match dm with
               | Pairing => pairingChallenge message fromEmail
               | _ => ret tt
               end) ;;;
              logInboundDrop CHANNEL_ID ("dmPolicy=" ++ DmPolicy_name dm) fromEmail
        end
  | None => log Warn "microsoft365: dropping message with no sender address"
  end.

(** Events handled one after the other on the same world. *)
Fixpoint handleAll (m365 : OpenClawConfig) (msgs : list GraphMailMessage) : M unit :=
  match msgs with
  | [] => ret tt
  | m :: rest => handleIncomingMail m365 m ;;; handleAll m365 rest
  end.

End Handler.

(** ** Sample inputs *)

Definition mail (mid addr : string) : GraphMailMessage :=
  {| id := mid;
     from := Some {| emailAddress := Some {| address := Some addr; name := None |} |};
     subject := Some "hi"; bodyPreview := Some "hello" |}.

Definition st0 : St := {| requests := []; nextCode := 0; sends := 0 |}.

Definition env_with (store : option (list string)) (creds : bool) (fails : nat -> bool)
    (agent : list ReplyPayload) : Env :=
  {| env_store := store; env_creds := creds; env_sendFails := fails;
     env_markReadFails := false; env_recordFails := false; env_agentReply := agent;
     env_sessionKey := fun p => "agent:main:microsoft365:dm:" ++ p |}.

Definition cfg_of (l : list string) (p : option DmPolicy) : OpenClawConfig :=
  Some {| allowFrom := Some l; dmPolicy := p |}.

(** ** Observations on a run *)

(** Lines 371-374: [[...configAllowFrom, ...storeAllowList]]. *)
Definition resolveAllowFrom (configList storeList : list string) : list string :=
  app (normalizeList configList) (normalizeList storeList).

(** The effective allow-list for a store read that resolves or rejects
    (a rejection is caught as the empty list). *)
Definition effectiveAllowFromOf (m365 : OpenClawConfig) (store : option (list string))
    : list string :=
  resolveAllowFrom (configAllowFromRaw m365)
    (match store with Some l => l | None => [] end).

Definition with_store (env : Env) (store : option (list string)) : Env :=
  {| env_store := store; env_creds := env_creds env; env_sendFails := env_sendFails env;
     env_markReadFails := env_markReadFails env; env_recordFails := env_recordFails env;
     env_agentReply := env_agentReply env;
     env_sessionKey := env_sessionKey env |}.

Definition is_dispatch (e : effect) : bool :=
  match e with EAgentDispatch _ => true | _ => false end.
Definition is_upsert (e : effect) : bool :=
  match e with EUpsertPairing _ _ _ _ => true | _ => false end.
Definition is_drop (e : effect) : bool :=
  match e with EInboundDrop _ _ _ => true | _ => false end.
Definition is_reply (e : effect) : bool :=
  match e with EReplyToMail _ _ => true | _ => false end.
Definition is_admit_effect (e : effect) : bool :=
  match e with EMarkAsRead _ | ERecordSession _ | EAgentDispatch _ => true | _ => false end.

(** Did the run reach the agent? *)
Definition agentInvoked (w : list effect) : bool := existsb is_dispatch w.

(** The (code, created) answers of the pairing store, in order. *)
Fixpoint upserts (w : list effect) : list (string * bool) :=
  match w with
  | [] => []
  | EUpsertPairing _ _ c b :: r => (c, b) :: upserts r
  | _ :: r => upserts r
  end.

Definition count_replies (w : list effect) : nat := length (filter is_reply w).

Definition count_requests (ch idv : string) (reqs : list PairingRequest) : nat :=
  length (filter (fun r => String.eqb (pr_channel r) ch && String.eqb (pr_id r) idv) reqs).

Definition trace {A} (o : res A * list effect * St) : list effect :=
  let '(_, w, _) := o in w.
Definition result {A} (o : res A * list effect * St) : res A :=
  let '(r, _, _) := o in r.
Definition final {A} (o : res A * list effect * St) : St :=
  let '(_, _, s) := o in s.

(** ** Further inputs and observations *)

Definition delivery_effect (e : effect) : bool :=
  match e with EReplyToMail _ _ | ELog _ _ => true | _ => false end.

Definition env0 : Env :=
  env_with (Some []) true (fun _ => false) [{| text := Some "ok"; kind := Final |}].

Definition mail_no_from : GraphMailMessage :=
  {| id := "m0"; from := None; subject := None; bodyPreview := None |}.

Definition subjectLine (msg : GraphMailMessage) : string :=
  match subject msg with Some x => x | None => "(no subject)" end.

Definition pairing_reply_or_error (x : effect) : bool :=
  is_reply x || match x with ELog Error _ => true | _ => false end.

Definition trim_list (l : list ascii) : list ascii :=
  rev (drop_spaces (rev (drop_spaces l))).

Definition pairing_request_for (e c : string) (nm : option string) : PairingRequest :=
  {| pr_channel := CHANNEL_ID; pr_id := e; pr_code := c; pr_name := nm |}.

Definition env_nocreds : Env := env_with (Some []) false (fun _ => false) [].

(** What [onError] logs after a delivery ended with [r]. *)
Definition failure_log (r : res unit) (p : ReplyPayload) : list effect :=
  match r with
  | Throw err => [ELog Error ("microsoft365 " ++ ReplyKind_name (kind p) ++ " reply failed: " ++ err)]
  | Ok _ => []
  end.

Definition env_second_fails : Env :=
  env_with (Some []) true (fun k => Nat.eqb k 1) [].

(** ** Other hooks of the channel plugin and the outbound adapter *)

(** [s.slice(n)] *)
Fixpoint str_drop (n : nat) (s : string) : string :=
  match n, s with
  | 0, _ => s
  | S k, String _ r => str_drop k r
  | S _, EmptyString => EmptyString
  end.

(** [s.includes(sub)] *)
Fixpoint includes (s sub : string) : bool :=
  String.prefix sub s || match s with EmptyString => false | String _ r => includes r sub end.

(** [config.formatAllowFrom] *)
Definition formatAllowFrom (allowFrom : list string) : list string :=
  filter truthy (map (fun entry => toLowerCase (trim entry)) allowFrom).

(** [messaging.normalizeTarget] *)
Definition normalizeTarget (raw : string) : option string :=
  let trimmed := toLowerCase (trim raw) in
  if String.prefix "email:" trimmed then Some (trim (str_drop 6 trimmed))
  else if String.prefix "mailto:" trimmed then Some (trim (str_drop 7 trimmed))
  else if includes trimmed "@" then Some trimmed
  else None.

(** [directory.listPeers]: peers as (kind, id) pairs. [limit] is an integer. *)
Definition listPeers (m365 : OpenClawConfig) (query : option string) (limit : option Z)
    : list (string * string) :=
  let allowFrom := configAllowFromRaw m365 in
  let q := match query with Some x => toLowerCase (trim x) | None => EmptyString end in
  let emails :=
    filter (fun email => if truthy q then includes email q else true)
      (filter truthy (map (fun email => toLowerCase (trim email)) allowFrom)) in
  let sliced :=
    match limit with
    | Some n => if (0 <? n)%Z then firstn (Z.to_nat n) emails else emails
    | None => emails
    end in
  map (fun id => ("user", id)) sliced.

Inductive TargetResult := TargetOk (to : string) | TargetError (msg : string).

Definition NO_TARGET_ERROR : string :=
  "Microsoft 365 Mail: no target email address. Provide `to=<email>` or set channels.microsoft365.allowFrom.".

(** [microsoft365Outbound.resolveTarget] ([mode] is unused). *)
Definition resolveTarget (to : option string) (allowFrom : option (list string)) : TargetResult :=
  let trimmed := match to with Some t => toLowerCase (trim t) | None => EmptyString end in
  if truthy trimmed && includes trimmed "@" then TargetOk trimmed
  else
    let allowList :=
      filter (fun entry => negb (String.eqb entry "*"))
        (filter truthy (map (fun entry => toLowerCase (trim entry))
                          (match allowFrom with Some l => l | None => [] end))) in
    match allowList with
    | x :: _ => TargetOk x
    | [] => TargetError NO_TARGET_ERROR
    end.

Local Set Warnings "-register-all".

(** JSON-like configuration values; an object is its key/value list with
    distinct keys, in insertion order. *)
Inductive JsVal :=
  | JBool (b : bool)
  | JStr (s : string)
  | JObj (o : list (string * JsVal))
  | JOther (n : nat).

Definition JsObj := list (string * JsVal).

Fixpoint obj_get (k : string) (o : JsObj) : option JsVal :=
  match o with
  | [] => None
  | (k', v) :: r => if String.eqb k' k then Some v else obj_get k r
  end.

(** [{ ...o, [k]: v }]: an existing key keeps its place, a new one goes last. *)
Fixpoint obj_set (k : string) (v : JsVal) (o : JsObj) : JsObj :=
  match o with
  | [] => [(k, v)]
  | (k', v') :: r => if String.eqb k' k then (k, v) :: r else (k', v') :: obj_set k v r
  end.

(** [delete o[k]] *)
Definition obj_delete (k : string) (o : JsObj) : JsObj :=
  filter (fun p => negb (String.eqb (fst p) k)) o.

(** [{ ...v }] for a value that is an object or absent. *)
Definition spread (v : option JsVal) : JsObj :=
  match v with Some (JObj o) => o | _ => [] end.

(** [cfg.channels?.[c]] *)
Definition channel_entry (cfg : JsObj) (c : string) : option JsVal :=
  match obj_get "channels" cfg with Some (JObj o) => obj_get c o | _ => None end.

(** [config.setAccountEnabled] *)
Definition setAccountEnabled (cfg : JsObj) (enabled : bool) : JsObj :=
  obj_set "channels"
    (JObj (obj_set "microsoft365"
             (JObj (obj_set "enabled" (JBool enabled) (spread (channel_entry cfg "microsoft365"))))
             (spread (obj_get "channels" cfg))))
    cfg.

(** [config.deleteAccount] *)
Definition deleteAccount (cfg : JsObj) : JsObj :=
  let next := cfg in
  let nextChannels := obj_delete "microsoft365" (spread (obj_get "channels" cfg)) in
  if 0 <? length nextChannels then obj_set "channels" (JObj nextChannels) next
  else obj_delete "channels" next.

(** [enabled] of [config.resolveAccount]: [m365?.enabled !== false]. *)
Definition account_enabled (cfg : JsObj) : bool :=
  match channel_entry cfg "microsoft365" with
  | Some (JObj o) => match obj_get "enabled" o with Some (JBool false) => false | _ => true end
  | _ => true
  end.

(** A string both trimmed and lower-cased. *)
Definition normal (t : string) : Prop := trim t = t /\ toLowerCase t = t.

(** * Theorems *)

(** ** Shape of the sub-steps *)

Lemma deliver_shape env msg p s :
  exists r w s', deliver env msg p s = (r, w, s') /\ forallb delivery_effect w = true.
Proof.
  unfold deliver, log, emit, ret, replyToMail.
  destruct (negb (truthy _)); [eauto|].
  destruct (negb (env_creds env)); [eauto|].
  destruct (env_sendFails env (sends s)); eauto.
Qed.

Lemma dispatch_shape env msg ps s :
  exists w s', dispatchPayloads (deliver env msg) onError ps s = (Ok tt, w, s')
               /\ forallb delivery_effect w = true.
Proof.
  revert s; induction ps as [|p ps IH]; intros s; simpl.
  - unfold ret; eauto.
  - unfold bind, catch.
    destruct (deliver_shape env msg p s) as (r & w & s1 & Hd & Hw).
    rewrite Hd. destruct r as [[]|err].
    + destruct (IH s1) as (w2 & s2 & Hr & Hw2). rewrite Hr.
      exists (app w w2), s2. split; [reflexivity|].
      rewrite forallb_app, Hw, Hw2; reflexivity.
    + destruct (IH s1) as (w2 & s2 & Hr & Hw2).
      unfold onError at 1, log, emit. cbv beta iota. rewrite Hr.
      eexists _, s2. split; [reflexivity|].
      rewrite !forallb_app, Hw, Hw2; reflexivity.
Qed.

(** The admitted path never throws, reaches the agent, and touches neither
    the pairing store nor the drop log. *)
Lemma admit_shape env msg e s :
  exists w s', admitAndDispatch env msg e s = (Ok tt, w, s')
    /\ agentInvoked w = true
    /\ forallb (fun x => negb (is_upsert x || is_drop x)) w = true.
Proof.
  unfold admitAndDispatch, dispatchReplyWithBufferedBlockDispatcher,
    recordInboundSession, markAsRead, bind, catch, emit, log, ret, throw.
  destruct (dispatch_shape env msg (env_agentReply env) s) as (wd & sd & Hd & Hwd).
  assert (Hwd' : forallb (fun x => negb (is_upsert x || is_drop x)) wd = true).
  { revert Hwd; clear; induction wd as [|x wd IH]; simpl; auto.
    destruct x; simpl; try discriminate; auto. }
  destruct (env_creds env); [destruct (env_markReadFails env)|];
    destruct (env_recordFails env); simpl;
    rewrite Hd; eexists _, sd; (split; [reflexivity|]); simpl;
    rewrite ?Hwd'; auto.
Qed.

(** The pairing challenge: one upsert, at most a reply attempt and its error
    log, never an effect of the admitted path. *)
Lemma challenge_shape env msg e s :
  exists c b w s', pairingChallenge env msg e s = (Ok tt, EUpsertPairing CHANNEL_ID e c b :: w, s')
    /\ forallb (fun x => is_reply x || match x with ELog Error _ => true | _ => false end) w = true
    /\ count_replies w = (if b && env_creds env then 1 else 0)
    /\ sends s' = sends s + count_replies w.
Proof.
  unfold pairingChallenge, upsertPairingRequest, bind, catch, log, emit, ret, replyToMail.
  destruct (find_request CHANNEL_ID e (requests s)) as [c|].
  - exists c, false, [], s. simpl. repeat split; try reflexivity; unfold count_replies; simpl; try lia.
  - destruct (env_creds env) eqn:Hc.
    + destruct (env_sendFails env _) eqn:Hf; simpl; rewrite ?Hf;
      eexists _, true, _, _; (split; [reflexivity|]); simpl; repeat split; try reflexivity; unfold count_replies; simpl; try lia.
    + simpl. eexists _, true, [], _. split; [reflexivity|]. simpl. repeat split; try reflexivity; unfold count_replies; simpl; try lia.
Qed.

(** The pairing challenge exactly: after the upsert, nothing, or the one
    pairing reply, or that reply and its failure log; a reply is attempted
    only for a newly created request with credentials set. *)
Lemma challenge_exact env msg e s :
  exists c b w s', pairingChallenge env msg e s = (Ok tt, EUpsertPairing CHANNEL_ID e c b :: w, s')
    /\ (w = []
        \/ w = [EReplyToMail (id msg) (buildPairingReply CHANNEL_ID ("Your email address: " ++ e) c)]
        \/ w = [EReplyToMail (id msg) (buildPairingReply CHANNEL_ID ("Your email address: " ++ e) c);
               ELog Error ("microsoft365: pairing reply failed for " ++ e ++ ": " ++ GRAPH_ERROR)])
    /\ (w <> [] -> b = true /\ env_creds env = true).
Proof.
  unfold pairingChallenge, upsertPairingRequest, bind, catch, log, emit, ret, replyToMail.
  destruct (find_request CHANNEL_ID e (requests s)) as [c|].
  - exists c, false, [], s. split; [reflexivity|]. split; [left; reflexivity|].
    intros H; contradiction H; reflexivity.
  - destruct (env_creds env) eqn:Hc.
    + destruct (env_sendFails env _) eqn:Hf; simpl; rewrite ?Hf;
        eexists _, true, _, _; (split; [reflexivity|]);
        (split; [right; (left; reflexivity) || (right; reflexivity)|]); auto.
    + simpl. eexists _, true, [], _. split; [reflexivity|].
      split; [left; reflexivity|]. intros H; contradiction H; reflexivity.
Qed.

Lemma bind_emit_run {A} e (k : unit -> M A) s :
  bind (emit e) k s = let '(r, w, s') := k tt s in (r, e :: w, s').
Proof. unfold bind, emit. destruct (k tt s) as [[r w] s']. reflexivity. Qed.

(** A message with a sender: log, read the store (a rejection reads as the
    empty list), then the gate on the effective allow-list. *)
Lemma handle_sender env m msg e s :
  fromEmailOf msg = Some e -> truthy e = true ->
  handleIncomingMail env m msg s =
  (log Info ("Incoming email from " ++ e ++ ": " ++
             match subject msg with Some x => x | None => "(no subject)" end) ;;;
   emit (EReadAllowFromStore CHANNEL_ID) ;;;
   let dm := resolveDmPolicy m in
   match dm with
   | Open => admitAndDispatch env msg e
   | _ =>
       if senderAllowed (effectiveAllowFromOf m (env_store env)) e
       then admitAndDispatch env msg e
       else
         (match dm with Pairing => pairingChallenge env msg e | _ => ret tt end) ;;;
         logInboundDrop CHANNEL_ID ("dmPolicy=" ++ DmPolicy_name dm) e
   end) s.
Proof.
  intros H1 H2. unfold handleIncomingMail. rewrite H1, H2. cbv beta iota.
  unfold bind at 1 3, log, emit at 1 2. cbv beta iota.
  unfold catch, readAllowFromStore, bind at 1 2, emit, throw, ret.
  cbv beta iota.
  destruct (env_store env); reflexivity.
Qed.

Lemma handle_ok env m msg s : result (handleIncomingMail env m msg s) = Ok tt.
Proof.
  destruct (fromEmailOf msg) as [e|] eqn:H1;
    [|unfold handleIncomingMail; rewrite H1; reflexivity].
  destruct (truthy e) eqn:H2;
    [|unfold handleIncomingMail; rewrite H1, H2; reflexivity].
  rewrite (handle_sender env m msg e s H1 H2). unfold log.
  rewrite !bind_emit_run.
  destruct (admit_shape env msg e s) as (wa & sa & Ha & _).
  destruct (resolveDmPolicy m);
    [rewrite Ha; reflexivity| |];
    (destruct (senderAllowed _ e); [rewrite Ha; reflexivity|]).
  - destruct (challenge_shape env msg e s) as (c & b & w & s' & Hc & _).
    unfold bind at 1. rewrite Hc. reflexivity.
  - reflexivity.
Qed.

(** [m365] matters to the handler only through the policy mode and the
    configured allow-list. *)
Lemma handle_cfg_ext env a b msg s :
  resolveDmPolicy a = resolveDmPolicy b -> configAllowFromRaw a = configAllowFromRaw b ->
  handleIncomingMail env a msg s = handleIncomingMail env b msg s.
Proof. intros Hp Hc. unfold handleIncomingMail. rewrite Hp, Hc. reflexivity. Qed.

(** ** Claims *)

(** C5: under policy [open], every message with a non-empty sender reaches
    the agent without throwing; the run upserts no pairing request and emits
    no drop record, and it is the same run whatever the configured and stored
    allow-lists hold. *)
Theorem open_policy_admits_all env m msg e s :
  resolveDmPolicy m = Open -> fromEmailOf msg = Some e -> truthy e = true ->
  result (handleIncomingMail env m msg s) = Ok tt
  /\ agentInvoked (trace (handleIncomingMail env m msg s)) = true
  /\ forallb (fun x => negb (is_upsert x || is_drop x))
       (trace (handleIncomingMail env m msg s)) = true
  /\ (forall m' store, resolveDmPolicy m' = Open ->
        handleIncomingMail (with_store env store) m' msg s = handleIncomingMail env m msg s).
Proof.
  intros Hp H1 H2.
  assert (Hrun : forall m', resolveDmPolicy m' = Open -> forall env',
             handleIncomingMail env' m' msg s =
             (log Info ("Incoming email from " ++ e ++ ": " ++
                match subject msg with Some x => x | None => "(no subject)" end) ;;;
              emit (EReadAllowFromStore CHANNEL_ID) ;;; admitAndDispatch env' msg e) s).
  { intros m' Hp' env'. rewrite (handle_sender env' m' msg e s H1 H2), Hp'. reflexivity. }
  rewrite (Hrun m Hp env). unfold log. rewrite !bind_emit_run.
  destruct (admit_shape env msg e s) as (w & s' & Ha & Hd & Hn). rewrite Ha.
  repeat split; auto.
  intros m' store Hp'. rewrite (Hrun m' Hp' (with_store env store)).
  unfold log. rewrite !bind_emit_run.
  change (admitAndDispatch (with_store env store) msg e s) with (admitAndDispatch env msg e s).
  rewrite Ha. reflexivity.
Qed.

Lemma open_policy_admits_all_witness :
  resolveDmPolicy (cfg_of [] (Some Open)) = Open
  /\ fromEmailOf (mail "m1" "Anyone@X.com") = Some "anyone@x.com"
  /\ truthy "anyone@x.com" = true
  /\ result (handleIncomingMail env0 (cfg_of [] (Some Open)) (mail "m1" "Anyone@X.com") st0) = Ok tt.
Proof.
  refine (conj eq_refl (conj eq_refl (conj eq_refl _))).
  apply (open_policy_admits_all env0 (cfg_of [] (Some Open)) (mail "m1" "Anyone@X.com")
           "anyone@x.com" st0); reflexivity.
Defined.

(** C8: when reading the persisted allow-list rejects, the run is exactly the
    run with a store that read as empty: the effective list is the normalized
    configured list, the gate still decides on it, and the handler does not
    throw. *)
Theorem store_failure_degrades_to_static env m msg s :
  env_store env = None ->
  handleIncomingMail env m msg s = handleIncomingMail (with_store env (Some [])) m msg s
  /\ effectiveAllowFromOf m (env_store env) = normalizeList (configAllowFromRaw m)
  /\ result (handleIncomingMail env m msg s) = Ok tt.
Proof.
  intros Hs. split; [|split].
  - unfold handleIncomingMail.
    destruct (fromEmailOf msg) as [e|]; [|reflexivity].
    destruct (negb (truthy e)); [reflexivity|].
    unfold bind at 1 3, catch, readAllowFromStore, bind at 1 2, emit, throw, ret.
    cbv beta iota. rewrite Hs. reflexivity.
  - unfold effectiveAllowFromOf, resolveAllowFrom. rewrite Hs. apply app_nil_r.
  - apply handle_ok.
Qed.

Lemma store_failure_degrades_to_static_witness :
  env_store (with_store env0 None) = None
  /\ agentInvoked (trace (handleIncomingMail (with_store env0 None)
        (cfg_of ["Boss@Corp.com"] (Some Allowlist)) (mail "m1" "boss@corp.com") st0)) = true.
Proof.
  split; [reflexivity|].
  destruct (store_failure_degrades_to_static (with_store env0 None)
              (cfg_of ["Boss@Corp.com"] (Some Allowlist)) (mail "m1" "boss@corp.com") st0
              eq_refl) as [-> _].
  vm_compute. reflexivity.
Defined.

(** C9: a message without a sender address is dropped after one warning; the
    handler returns normally and the world is untouched. *)
Theorem missing_sender_dropped env m msg s :
  from_address msg = None ->
  handleIncomingMail env m msg s =
  (Ok tt, [ELog Warn "microsoft365: dropping message with no sender address"], s).
Proof. intros H. unfold handleIncomingMail, fromEmailOf. rewrite H. reflexivity. Qed.

Lemma missing_sender_dropped_witness :
  from_address mail_no_from = None
  /\ handleIncomingMail env0 (cfg_of [] None) mail_no_from st0 =
     (Ok tt, [ELog Warn "microsoft365: dropping message with no sender address"], st0).
Proof. split; [reflexivity | apply missing_sender_dropped; reflexivity]. Defined.

(** C10: an unset [dmPolicy] (or an unset channel section) behaves in the
    handler and in [collectWarnings] exactly like an explicit ["pairing"];
    it never resolves to [open] and raises no warning. *)
Theorem unset_policy_defaults_to_pairing env c msg s :
  handleIncomingMail env (Some {| allowFrom := allowFrom c; dmPolicy := None |}) msg s
  = handleIncomingMail env (Some {| allowFrom := allowFrom c; dmPolicy := Some Pairing |}) msg s
  /\ handleIncomingMail env None msg s
     = handleIncomingMail env (Some {| allowFrom := None; dmPolicy := Some Pairing |}) msg s
  /\ collectWarnings (Some {| allowFrom := allowFrom c; dmPolicy := None |})
     = collectWarnings (Some {| allowFrom := allowFrom c; dmPolicy := Some Pairing |})
  /\ collectWarnings None = collectWarnings (Some {| allowFrom := None; dmPolicy := Some Pairing |})
  /\ collectWarnings (Some {| allowFrom := allowFrom c; dmPolicy := None |}) = []
  /\ resolveDmPolicy (Some {| allowFrom := allowFrom c; dmPolicy := None |}) <> Open.
Proof.
  repeat split; try (apply handle_cfg_ext; reflexivity); try reflexivity; discriminate.
Qed.

(** ** The gate *)

Lemma senderAllowed_spec l e :
  senderAllowed l e = true <-> In e l \/ In "*" l.
Proof.
  unfold senderAllowed. rewrite existsb_exists. split.
  - intros (x & Hin & Hx). apply orb_true_iff in Hx as [Hx|Hx];
      apply String.eqb_eq in Hx; subst; auto.
  - intros [H|H]; eexists; split; [exact H| |exact H|];
      rewrite String.eqb_refl; simpl; rewrite ?orb_true_r; reflexivity.
Qed.

(** An admitted message: the prelude, then the admitted path. *)
Lemma allow_shape env m msg e s :
  fromEmailOf msg = Some e -> truthy e = true ->
  resolveDmPolicy m = Open \/ senderAllowed (effectiveAllowFromOf m (env_store env)) e = true ->
  exists w s', handleIncomingMail env m msg s =
    (Ok tt, ELog Info ("Incoming email from " ++ e ++ ": " ++ subjectLine msg)
            :: EReadAllowFromStore CHANNEL_ID :: w, s')
    /\ agentInvoked w = true
    /\ forallb (fun x => negb (is_upsert x || is_drop x)) w = true.
Proof.
  intros H1 H2 Hg. rewrite (handle_sender env m msg e s H1 H2). unfold log.
  rewrite !bind_emit_run.
  destruct (admit_shape env msg e s) as (w & s' & Ha & Hd & Hn).
  exists w, s'. split; [|auto].
  destruct (resolveDmPolicy m); [rewrite Ha; reflexivity| |];
    (destruct Hg as [Hg|Hg]; [discriminate|rewrite Hg, Ha; reflexivity]).
Qed.

(** A denied message: the prelude, the pairing challenge under [pairing]
    (nothing under [allowlist]), then one drop record. *)
Lemma deny_shape env m msg e s :
  fromEmailOf msg = Some e -> truthy e = true -> resolveDmPolicy m <> Open ->
  senderAllowed (effectiveAllowFromOf m (env_store env)) e = false ->
  exists wp s', handleIncomingMail env m msg s =
    (Ok tt, ELog Info ("Incoming email from " ++ e ++ ": " ++ subjectLine msg)
            :: EReadAllowFromStore CHANNEL_ID
            :: app wp [EInboundDrop CHANNEL_ID ("dmPolicy=" ++ DmPolicy_name (resolveDmPolicy m)) e],
     s')
    /\ (resolveDmPolicy m = Allowlist -> wp = [] /\ s' = s)
    /\ (resolveDmPolicy m = Pairing ->
        pairingChallenge env msg e s = (Ok tt, wp, s')
        /\ exists c b w, wp = EUpsertPairing CHANNEL_ID e c b :: w
           /\ forallb (fun x => is_reply x || match x with ELog Error _ => true | _ => false end) w = true
           /\ count_replies w = (if b && env_creds env then 1 else 0)).
Proof.
  intros H1 H2 Hp Hg. rewrite (handle_sender env m msg e s H1 H2). unfold log.
  rewrite !bind_emit_run.
  destruct (resolveDmPolicy m) eqn:Hm; [congruence| |]; rewrite Hg.
  - destruct (challenge_shape env msg e s) as (c & b & w & s' & Hc & Hw & Hr & _).
    exists (EUpsertPairing CHANNEL_ID e c b :: w), s'.
    unfold bind at 1. rewrite Hc. unfold logInboundDrop, emit.
    split; [reflexivity|]. split; [discriminate|]. intros _. split; [reflexivity|].
    exists c, b, w. auto.
  - exists [], s. split; [reflexivity|]. split; [auto|discriminate].
Qed.

(** C1 (as the code does it): under [pairing], a message with a non-empty
    sender reaches the agent exactly when the effective allow-list holds the
    sender or the wildcard ["*"]. *)
Theorem pairing_admits_listed_or_wildcard env m msg e s :
  resolveDmPolicy m = Pairing -> fromEmailOf msg = Some e -> truthy e = true ->
  agentInvoked (trace (handleIncomingMail env m msg s)) = true
  <-> In e (effectiveAllowFromOf m (env_store env))
      \/ In "*" (effectiveAllowFromOf m (env_store env)).
Proof.
  intros Hp H1 H2. rewrite <- senderAllowed_spec.
  destruct (senderAllowed (effectiveAllowFromOf m (env_store env)) e) eqn:Hg.
  - destruct (allow_shape env m msg e s H1 H2 (or_intror Hg)) as (w & s' & -> & Hd & _).
    simpl. rewrite Hd. tauto.
  - destruct (deny_shape env m msg e s H1 H2 ltac:(congruence) Hg)
      as (wp & s' & -> & _ & Hpair).
    destruct (Hpair Hp) as (_ & c & b & w & -> & Hw & _).
    unfold trace, agentInvoked. simpl.
    rewrite existsb_app. simpl.
    assert (existsb is_dispatch w = false) as ->.
    { clear - Hw. induction w as [|x w IH]; simpl in *; auto.
      apply andb_true_iff in Hw as [Hx Hw]. destruct x; try discriminate; auto. }
    split; discriminate.
Qed.

Lemma pairing_admits_listed_or_wildcard_witness :
  resolveDmPolicy (cfg_of ["a@b.com"] None) = Pairing
  /\ fromEmailOf (mail "m1" "A@B.com") = Some "a@b.com"
  /\ truthy "a@b.com" = true
  /\ agentInvoked (trace (handleIncomingMail env0 (cfg_of ["a@b.com"] None) (mail "m1" "A@B.com") st0)) = true.
Proof.
  refine (conj eq_refl (conj eq_refl (conj eq_refl _))).
  apply (pairing_admits_listed_or_wildcard env0 (cfg_of ["a@b.com"] None)
           (mail "m1" "A@B.com") "a@b.com" st0 eq_refl eq_refl eq_refl).
  left. vm_compute. left. reflexivity.
Defined.

(** C1 fails as stated: under [pairing], the wildcard alone admits a sender
    who is not listed. *)
Lemma pairing_wildcard_admits_unlisted :
  resolveDmPolicy (cfg_of ["*"] (Some Pairing)) = Pairing
  /\ ~ In "stranger@x.com" (effectiveAllowFromOf (cfg_of ["*"] (Some Pairing)) (env_store env0))
  /\ agentInvoked (trace (handleIncomingMail env0 (cfg_of ["*"] (Some Pairing))
                          (mail "m1" "stranger@x.com") st0)) = true.
Proof.
  split; [reflexivity|]. split.
  - vm_compute. intros [H|[]]. discriminate.
  - vm_compute. reflexivity.
Qed.

(** C6 (as the code does it): a denied message (policy not [open], sender not
    admitted) ends in one drop record [{channel, "dmPolicy=<mode>", sender}]
    for the active mode; before it, after the per-message log line and the
    store read, come nothing under [allowlist] and, under [pairing], the
    upsert of the pairing request followed by nothing, or the one pairing
    reply, or that reply and its failure log, a reply being attempted only
    for a new request with credentials set. No mark-as-read, session write
    or agent dispatch occurs, and the handler returns normally. *)
Theorem deny_effects env m msg e s :
  fromEmailOf msg = Some e -> truthy e = true -> resolveDmPolicy m <> Open ->
  senderAllowed (effectiveAllowFromOf m (env_store env)) e = false ->
  result (handleIncomingMail env m msg s) = Ok tt
  /\ (exists wp,
        trace (handleIncomingMail env m msg s) =
        ELog Info ("Incoming email from " ++ e ++ ": " ++ subjectLine msg)
        :: EReadAllowFromStore CHANNEL_ID
        :: app wp [EInboundDrop CHANNEL_ID ("dmPolicy=" ++ DmPolicy_name (resolveDmPolicy m)) e]
        /\ (resolveDmPolicy m = Allowlist -> wp = [])
        /\ (resolveDmPolicy m = Pairing ->
            exists c b w, wp = EUpsertPairing CHANNEL_ID e c b :: w
              /\ forallb pairing_reply_or_error w = true
              /\ (w = []
                  \/ w = [EReplyToMail (id msg)
                          (buildPairingReply CHANNEL_ID ("Your email address: " ++ e) c)]
                  \/ w = [EReplyToMail (id msg)
                          (buildPairingReply CHANNEL_ID ("Your email address: " ++ e) c);
                         ELog Error ("microsoft365: pairing reply failed for " ++ e ++ ": "
                                     ++ GRAPH_ERROR)])
              /\ (w <> [] -> b = true /\ env_creds env = true)))
  /\ forallb (fun x => negb (is_admit_effect x)) (trace (handleIncomingMail env m msg s)) = true.
Proof.
  intros H1 H2 Hp Hg.
  destruct (deny_shape env m msg e s H1 H2 Hp Hg) as (wp & s' & Hrun & Hal & Hpa).
  rewrite Hrun. unfold result, trace.
  split; [reflexivity|]. split.
  - exists wp. split; [reflexivity|]. split.
    + intros Ha. apply Hal, Ha.
    + intros Hq. destruct (Hpa Hq) as (Hc & c & b & w & Hw & Hf & _).
      destruct (challenge_exact env msg e s) as (c' & b' & w' & s2 & Hc' & Hx & Hb).
      rewrite Hc' in Hc. injection Hc as Hw' _. subst wp.
      injection Hw; intros; subst. eauto 10.
  - simpl. rewrite forallb_app. simpl. rewrite andb_true_r.
    destruct (resolveDmPolicy m) eqn:Hm; [congruence| |].
    + destruct (Hpa eq_refl) as (_ & c & b & w & -> & Hf & _). simpl.
      clear - Hf. induction w as [|x w IH]; simpl in *; auto.
      apply andb_true_iff in Hf as [Hx Hf]. destruct x; try discriminate; simpl; auto.
    + destruct (Hal eq_refl) as [-> _]. reflexivity.
Qed.

Lemma deny_effects_witness :
  fromEmailOf (mail "m1" "new@x.com") = Some "new@x.com"
  /\ truthy "new@x.com" = true
  /\ resolveDmPolicy (cfg_of [] (Some Pairing)) <> Open
  /\ senderAllowed (effectiveAllowFromOf (cfg_of [] (Some Pairing)) (env_store env0)) "new@x.com" = false
  /\ result (handleIncomingMail env0 (cfg_of [] (Some Pairing)) (mail "m1" "new@x.com") st0) = Ok tt.
Proof.
  assert (Hp : resolveDmPolicy (cfg_of [] (Some Pairing)) <> Open) by discriminate.
  refine (conj eq_refl (conj eq_refl (conj Hp (conj eq_refl _)))).
  apply (deny_effects env0 (cfg_of [] (Some Pairing)) (mail "m1" "new@x.com") "new@x.com" st0
           eq_refl eq_refl Hp eq_refl).
Defined.

(** C6 fails as stated: a pairing-mode denial also upserts a pairing request,
    an effect that is neither the drop record nor the pairing reply. *)
Lemma deny_also_upserts_pairing_request :
  agentInvoked (trace (handleIncomingMail env0 (cfg_of [] (Some Pairing)) (mail "m1" "new@x.com") st0)) = false
  /\ In (EUpsertPairing CHANNEL_ID "new@x.com" (gen_code 0) true)
        (trace (handleIncomingMail env0 (cfg_of [] (Some Pairing)) (mail "m1" "new@x.com") st0))
  /\ forallb (fun x => is_drop x || is_reply x
                       || match x with ELog Info _ | EReadAllowFromStore _ => true | _ => false end)
       (trace (handleIncomingMail env0 (cfg_of [] (Some Pairing)) (mail "m1" "new@x.com") st0))
     = false.
Proof.
  split; [vm_compute; reflexivity|]. split; [|vm_compute; reflexivity].
  vm_compute. right. right. left. reflexivity.
Qed.

(** ** Normalization of allow-list entries *)

Lemma js_lower_char_space c : is_js_space (js_lower_char c) = is_js_space c.
Proof. destruct c as [[] [] [] [] [] [] [] []]; reflexivity. Qed.

Lemma js_lower_char_idem c : js_lower_char (js_lower_char c) = js_lower_char c.
Proof. destruct c as [[] [] [] [] [] [] [] []]; reflexivity. Qed.

Lemma drop_spaces_map_lower l :
  drop_spaces (map js_lower_char l) = map js_lower_char (drop_spaces l).
Proof.
  induction l as [|c l IH]; simpl; auto.
  rewrite js_lower_char_space. destruct (is_js_space c); auto.
Qed.

Lemma drop_spaces_idem l : drop_spaces (drop_spaces l) = drop_spaces l.
Proof.
  induction l as [|c l IH]; simpl; auto.
  destruct (is_js_space c) eqn:Hc; auto. simpl. rewrite Hc. reflexivity.
Qed.

Lemma drop_spaces_head l :
  drop_spaces l = [] \/ exists c r, drop_spaces l = c :: r /\ is_js_space c = false.
Proof.
  induction l as [|c l IH]; simpl; auto.
  destruct (is_js_space c) eqn:Hc; eauto.
Qed.

Lemma drop_spaces_app x y :
  drop_spaces (app x y) = if forallb is_js_space x then drop_spaces y else app (drop_spaces x) y.
Proof.
  induction x as [|c x IH]; simpl; auto.
  destruct (is_js_space c); simpl; auto.
Qed.

Lemma strip_end_keeps_head c r :
  is_js_space c = false -> exists t, rev (drop_spaces (rev (c :: r))) = c :: t.
Proof.
  intros Hc. simpl. rewrite drop_spaces_app. simpl. rewrite Hc.
  destruct (forallb is_js_space (rev r)).
  - exists []. reflexivity.
  - rewrite rev_app_distr. simpl. eauto.
Qed.

Lemma trim_list_idem l : trim_list (trim_list l) = trim_list l.
Proof.
  unfold trim_list.
  assert (Hd : drop_spaces (rev (drop_spaces (rev (drop_spaces l))))
               = rev (drop_spaces (rev (drop_spaces l)))).
  { destruct (drop_spaces_head l) as [-> | (c & r & -> & Hc)]; [reflexivity|].
    destruct (strip_end_keeps_head c r Hc) as (t & ->). simpl. rewrite Hc. reflexivity. }
  rewrite Hd, rev_involutive, drop_spaces_idem. reflexivity.
Qed.

Lemma trim_list_map_lower l :
  trim_list (map js_lower_char l) = map js_lower_char (trim_list l).
Proof.
  unfold trim_list.
  rewrite drop_spaces_map_lower, <- map_rev, drop_spaces_map_lower, map_rev. reflexivity.
Qed.

Lemma normalize_entry_list s :
  toLowerCase (trim s) =
  string_of_list_ascii (map js_lower_char (trim_list (list_ascii_of_string s))).
Proof.
  unfold toLowerCase, trim. rewrite list_ascii_of_string_of_list_ascii. reflexivity.
Qed.

Lemma normalize_entry_idem s :
  toLowerCase (trim (toLowerCase (trim s))) = toLowerCase (trim s).
Proof.
  rewrite !normalize_entry_list, list_ascii_of_string_of_list_ascii.
  rewrite trim_list_map_lower, trim_list_idem, map_map.
  f_equal. apply map_ext. apply js_lower_char_idem.
Qed.

Lemma normalizeList_idem l : normalizeList (normalizeList l) = normalizeList l.
Proof.
  unfold normalizeList. induction l as [|a l IH]; simpl; auto.
  destruct (truthy (toLowerCase (trim a))) eqn:Ha; simpl; auto.
  rewrite normalize_entry_idem, Ha, IH. reflexivity.
Qed.

Lemma normalizeList_app l1 l2 :
  normalizeList (app l1 l2) = app (normalizeList l1) (normalizeList l2).
Proof. unfold normalizeList. rewrite map_app, filter_app. reflexivity. Qed.

Lemma normalizeList_In x l :
  In x (normalizeList l) <-> exists r, In r l /\ x = toLowerCase (trim r) /\ x <> EmptyString.
Proof.
  unfold normalizeList, truthy. rewrite filter_In, in_map_iff. split.
  - intros ((r & <- & Hr) & Ht). exists r. repeat split; auto.
    intros He. rewrite He in Ht. discriminate.
  - intros (r & Hr & -> & Hne). split; eauto.
    destruct (String.eqb _ _) eqn:E; auto. apply String.eqb_eq in E. contradiction.
Qed.

(** C7 (as the code does it): resolution trims, lower-cases and drops empty
    entries of each source and concatenates the configured entries before the
    stored ones, keeping duplicates. As a membership set it is the set of
    normalized non-empty entries of either source; re-resolving its result
    gives the same list; the example list resolves to two copies of
    ["foo@bar.com"], the single-element set [{foo@bar.com}]. *)
Theorem resolveAllowFrom_normalizes (c st : list string) :
  resolveAllowFrom c st = app (normalizeList c) (normalizeList st)
  /\ (forall x, In x (resolveAllowFrom c st) <->
        exists r, (In r c \/ In r st) /\ x = toLowerCase (trim r) /\ x <> EmptyString)
  /\ resolveAllowFrom (resolveAllowFrom c st) [] = resolveAllowFrom c st
  /\ resolveAllowFrom ["Foo@Bar.com"; " foo@bar.com "] [] = ["foo@bar.com"; "foo@bar.com"]
  /\ (forall x, In x (resolveAllowFrom ["Foo@Bar.com"; " foo@bar.com "] []) <-> x = "foo@bar.com").
Proof.
  split; [reflexivity|]. split; [|split; [|split]].
  - intros x. unfold resolveAllowFrom. rewrite in_app_iff, !normalizeList_In. split.
    + intros [(r & ? & ?)|(r & ? & ?)]; eauto.
    + intros (r & [Hr|Hr] & ?); [left|right]; eauto.
  - unfold resolveAllowFrom. rewrite app_nil_r, normalizeList_app, !normalizeList_idem.
    reflexivity.
  - vm_compute. reflexivity.
  - intros x. vm_compute. split.
    + intros [H|[H|[]]]; auto.
    + intros ->. auto.
Qed.

(** C7 fails as stated: duplicates are not dropped; the example resolves to a
    two-element list. *)
Lemma resolveAllowFrom_keeps_duplicates :
  resolveAllowFrom ["Foo@Bar.com"; " foo@bar.com "] [] <> ["foo@bar.com"]
  /\ length (resolveAllowFrom ["Foo@Bar.com"; " foo@bar.com "] []) = 2.
Proof. split; [vm_compute; discriminate | reflexivity]. Qed.

(** ** Repeated events from one unapproved sender *)

Lemma find_none_count ch idv reqs :
  find_request ch idv reqs = None -> count_requests ch idv reqs = 0.
Proof.
  unfold count_requests. induction reqs as [|r reqs IH]; simpl; auto.
  destruct (String.eqb _ _ && String.eqb _ _); [discriminate|auto].
Qed.

Lemma count_requests_app ch idv l1 l2 :
  count_requests ch idv (app l1 l2) = count_requests ch idv l1 + count_requests ch idv l2.
Proof. unfold count_requests. rewrite filter_app, length_app. reflexivity. Qed.

Lemma find_request_app_none ch idv reqs r :
  find_request ch idv reqs = None ->
  find_request ch idv (app reqs [r]) =
  if String.eqb (pr_channel r) ch && String.eqb (pr_id r) idv then Some (pr_code r) else None.
Proof.
  induction reqs as [|x reqs IH]; simpl; intros H.
  - destruct (String.eqb _ _ && String.eqb _ _); reflexivity.
  - destruct (String.eqb (pr_channel x) ch && String.eqb (pr_id x) idv);
      [discriminate|apply IH, H].
Qed.

Lemma challenge_new env msg e s :
  find_request CHANNEL_ID e (requests s) = None ->
  exists nm w s', pairingChallenge env msg e s =
      (Ok tt, EUpsertPairing CHANNEL_ID e (gen_code (nextCode s)) true :: w, s')
    /\ requests s' = app (requests s) [pairing_request_for e (gen_code (nextCode s)) nm]
    /\ forallb pairing_reply_or_error w = true
    /\ count_replies w = (if env_creds env then 1 else 0).
Proof.
  intros Hf.
  unfold pairingChallenge, upsertPairingRequest, bind, catch, log, emit, ret, replyToMail.
  rewrite Hf. cbv beta iota.
  eexists. destruct (env_creds env).
  - destruct (env_sendFails env _); simpl;
      (eexists _, _; split; [reflexivity|]); simpl; repeat split; reflexivity.
  - simpl. eexists _, _; split; [reflexivity|]. simpl; repeat split; reflexivity.
Qed.

Lemma challenge_existing env msg e s c :
  find_request CHANNEL_ID e (requests s) = Some c ->
  pairingChallenge env msg e s = (Ok tt, [EUpsertPairing CHANNEL_ID e c false], s).
Proof.
  intros Hf. unfold pairingChallenge, upsertPairingRequest, bind, ret. rewrite Hf. reflexivity.
Qed.

Lemma upserts_app w1 w2 : upserts (app w1 w2) = app (upserts w1) (upserts w2).
Proof. induction w1 as [|x w1 IH]; simpl; auto. destruct x; simpl; rewrite ?IH; auto. Qed.

Lemma count_replies_app w1 w2 :
  count_replies (app w1 w2) = count_replies w1 + count_replies w2.
Proof. unfold count_replies. rewrite filter_app, length_app. reflexivity. Qed.

Lemma agentInvoked_app w1 w2 :
  agentInvoked (app w1 w2) = agentInvoked w1 || agentInvoked w2.
Proof. unfold agentInvoked. apply existsb_app. Qed.

Lemma reply_or_error_quiet w :
  forallb pairing_reply_or_error w = true -> upserts w = [] /\ agentInvoked w = false.
Proof.
  induction w as [|x w IH]; simpl; auto.
  intros H. apply andb_true_iff in H as [Hx H].
  destruct x; try discriminate; simpl; auto.
Qed.

Lemma observe_deny a b w ch r t :
  let tr := ELog Info a :: EReadAllowFromStore b :: app w [EInboundDrop ch r t] in
  upserts tr = upserts w /\ count_replies tr = count_replies w
  /\ agentInvoked tr = agentInvoked w.
Proof.
  cbv zeta. split; [|split].
  - simpl. rewrite upserts_app. simpl. apply app_nil_r.
  - unfold count_replies. simpl. rewrite filter_app, length_app. simpl. lia.
  - unfold agentInvoked. simpl. rewrite existsb_app. simpl. apply orb_false_r.
Qed.

Section Repeated.

Variables (env : Env) (m : OpenClawConfig) (S : string).
Hypothesis Hpol : resolveDmPolicy m = Pairing.
Hypothesis HS : truthy S = true.
Hypothesis Hdeny : senderAllowed (effectiveAllowFromOf m (env_store env)) S = false.

Lemma first_event msg s :
  fromEmailOf msg = Some S -> find_request CHANNEL_ID S (requests s) = None ->
  exists w s', handleIncomingMail env m msg s = (Ok tt, w, s')
    /\ upserts w = [(gen_code (nextCode s), true)]
    /\ count_replies w = (if env_creds env then 1 else 0)
    /\ agentInvoked w = false
    /\ find_request CHANNEL_ID S (requests s') = Some (gen_code (nextCode s))
    /\ count_requests CHANNEL_ID S (requests s') = 1.
Proof.
  intros H1 Hf.
  destruct (deny_shape env m msg S s H1 HS ltac:(congruence) Hdeny)
    as (wp & s' & Hrun & _ & Hpa).
  destruct (Hpa Hpol) as (Hc & _).
  destruct (challenge_new env msg S s Hf) as (nm & w & s2 & Hc2 & Hreq & Hw & Hr).
  rewrite Hc2 in Hc. injection Hc as <- <-.
  destruct (reply_or_error_quiet w Hw) as [Hu Ha].
  eexists _, s2. split; [exact Hrun|].
  destruct (observe_deny ("Incoming email from " ++ S ++ ": " ++ subjectLine msg) CHANNEL_ID
              (EUpsertPairing CHANNEL_ID S (gen_code (nextCode s)) true :: w) CHANNEL_ID
              ("dmPolicy=" ++ DmPolicy_name (resolveDmPolicy m)) S) as (-> & -> & ->).
  rewrite Hreq, find_request_app_none, count_requests_app, (find_none_count _ _ _ Hf) by exact Hf.
  cbn [upserts agentInvoked existsb is_dispatch orb pairing_request_for pr_channel pr_id pr_code].
  unfold agentInvoked in Ha. rewrite Hu, Ha, !String.eqb_refl.
  unfold count_requests, count_replies in *. simpl. rewrite !String.eqb_refl, Hr.
  repeat split; reflexivity.
Qed.

Lemma later_events msgs s c :
  (forall x, In x msgs -> fromEmailOf x = Some S) ->
  find_request CHANNEL_ID S (requests s) = Some c ->
  exists w, handleAll env m msgs s = (Ok tt, w, s)
    /\ upserts w = repeat (c, false) (length msgs)
    /\ count_replies w = 0
    /\ agentInvoked w = false.
Proof.
  revert s. induction msgs as [|x msgs IH]; intros s Hall Hf.
  - exists []. simpl. repeat split.
  - destruct (deny_shape env m x S s (Hall x (or_introl eq_refl)) HS ltac:(congruence) Hdeny)
      as (wp & s' & Hrun & _ & Hpa).
    destruct (Hpa Hpol) as (Hc & _).
    rewrite (challenge_existing env x S s c Hf) in Hc. injection Hc as <- <-.
    destruct (IH s (fun y Hy => Hall y (or_intror Hy)) Hf) as (w & Hw & Hu & Hr & Ha).
    simpl handleAll. unfold bind at 1. rewrite Hrun, Hw.
    eexists. split; [reflexivity|].
    rewrite upserts_app, count_replies_app, agentInvoked_app.
    destruct (observe_deny ("Incoming email from " ++ S ++ ": " ++ subjectLine x) CHANNEL_ID
              [EUpsertPairing CHANNEL_ID S c false] CHANNEL_ID
              ("dmPolicy=" ++ DmPolicy_name (resolveDmPolicy m)) S) as (-> & -> & ->).
    rewrite Hu, Hr, Ha. unfold count_replies. simpl. repeat split.
Qed.

End Repeated.

(** C2 (as the code does it): under [pairing], for a sender with no pending
    request who is not on the effective allow-list, any non-empty run
    [x :: rest] of events from that sender leaves exactly one pairing request
    for it; the store creates it on the first event and answers every later
    event with the same code and [created = false]; the pairing reply is
    attempted only in the run of the first event [x], and only when the
    account's credentials resolve to a refresh token (then once, otherwise
    never), while the runs of [rest] attempt none; the agent is never
    invoked. *)
Theorem pairing_idempotent env m x rest S s :
  resolveDmPolicy m = Pairing ->
  (forall y, In y (x :: rest) -> fromEmailOf y = Some S) -> truthy S = true ->
  senderAllowed (effectiveAllowFromOf m (env_store env)) S = false ->
  find_request CHANNEL_ID S (requests s) = None ->
  result (handleAll env m (x :: rest) s) = Ok tt
  /\ count_requests CHANNEL_ID S (requests (final (handleAll env m (x :: rest) s))) = 1
  /\ upserts (trace (handleAll env m (x :: rest) s))
     = (gen_code (nextCode s), true) :: repeat (gen_code (nextCode s), false) (length rest)
  /\ trace (handleAll env m (x :: rest) s)
     = app (trace (handleIncomingMail env m x s))
           (trace (handleAll env m rest (final (handleIncomingMail env m x s))))
  /\ count_replies (trace (handleIncomingMail env m x s)) = (if env_creds env then 1 else 0)
  /\ count_replies (trace (handleAll env m rest (final (handleIncomingMail env m x s)))) = 0
  /\ count_replies (trace (handleAll env m (x :: rest) s)) = (if env_creds env then 1 else 0)
  /\ agentInvoked (trace (handleAll env m (x :: rest) s)) = false.
Proof.
  intros Hp Hall HS Hd Hf.
  destruct (first_event env m S Hp HS Hd x s (Hall x (or_introl eq_refl)) Hf)
    as (w1 & s1 & Hr1 & Hu1 & Hc1 & Ha1 & Hf1 & Hn1).
  destruct (later_events env m S Hp HS Hd rest s1 _ (fun y Hy => Hall y (or_intror Hy)) Hf1)
    as (w2 & Hr2 & Hu2 & Hc2 & Ha2).
  assert (Hrun : handleAll env m (x :: rest) s = (Ok tt, app w1 w2, s1)).
  { simpl handleAll. unfold bind. rewrite Hr1, Hr2. reflexivity. }
  rewrite Hrun, Hr1. unfold result, trace, final. rewrite Hr2.
  rewrite upserts_app, count_replies_app, agentInvoked_app, Hu1, Hu2, Hc1, Hc2, Ha1, Ha2.
  simpl. rewrite Nat.add_0_r. repeat split; auto.
Qed.

Lemma pairing_idempotent_witness :
  count_requests CHANNEL_ID "new@x.com"
    (requests (final (handleAll env0 (cfg_of [] None)
                        [mail "m1" "new@x.com"; mail "m2" "New@X.com"; mail "m3" "NEW@x.com"] st0))) = 1
  /\ count_replies (trace (handleIncomingMail env0 (cfg_of [] None) (mail "m1" "new@x.com") st0)) = 1
  /\ count_replies (trace (handleAll env0 (cfg_of [] None)
                        [mail "m1" "new@x.com"; mail "m2" "New@X.com"; mail "m3" "NEW@x.com"] st0)) = 1.
Proof.
  assert (Hall : forall y, In y [mail "m1" "new@x.com"; mail "m2" "New@X.com"; mail "m3" "NEW@x.com"] ->
                 fromEmailOf y = Some "new@x.com").
  { intros y [<-|[<-|[<-|[]]]]; reflexivity. }
  destruct (pairing_idempotent env0 (cfg_of [] None) (mail "m1" "new@x.com")
              [mail "m2" "New@X.com"; mail "m3" "NEW@x.com"]
              "new@x.com" st0 eq_refl Hall eq_refl eq_refl eq_refl)
    as (_ & Hn & _ & _ & H1 & _ & Hr & _).
  split; [exact Hn|]. split; [exact H1 | exact Hr].
Defined.

(** C2 fails as stated: without a refresh token no pairing reply is sent at
    all, though the request is created. *)
Lemma pairing_no_reply_without_credentials :
  count_requests CHANNEL_ID "new@x.com"
    (requests (final (handleAll env_nocreds (cfg_of [] None)
                        [mail "m1" "new@x.com"; mail "m2" "new@x.com"] st0))) = 1
  /\ count_replies (trace (handleAll env_nocreds (cfg_of [] None)
                        [mail "m1" "new@x.com"; mail "m2" "new@x.com"] st0)) = 0.
Proof. split; vm_compute; reflexivity. Qed.

(** ** Sender normalization *)

(** C3 fails in the code: the inbound sender is lower-cased but not trimmed,
    while configured and stored entries are trimmed and lower-cased. A sender
    address with surrounding blanks normalizes to a listed entry yet is
    dropped under [allowlist]; under [pairing] the request is filed under
    the untrimmed address, so even after approval puts that address into the
    store (where it is read back trimmed) the sender stays gated. *)
Theorem sender_not_trimmed_before_comparison :
  normalizeAllowEntry " Foo@Bar.com" = normalizeAllowEntry "foo@bar.com"
  /\ toLowerCase (trim " Foo@Bar.com") = toLowerCase (trim "foo@bar.com")
  /\ fromEmailOf (mail "m1" " Foo@Bar.com") = Some " foo@bar.com"
  /\ agentInvoked (trace (handleIncomingMail env0 (cfg_of ["foo@bar.com"] (Some Allowlist))
                          (mail "m1" " Foo@Bar.com") st0)) = false
  /\ map pr_id (requests (final (handleIncomingMail env0 (cfg_of [] (Some Pairing))
                                   (mail "m1" " Foo@Bar.com") st0))) = [" foo@bar.com"]
  /\ agentInvoked (trace (handleIncomingMail (with_store env0 (Some [" foo@bar.com"]))
                          (cfg_of [] (Some Pairing)) (mail "m2" " Foo@Bar.com")
                          (final (handleIncomingMail env0 (cfg_of [] (Some Pairing))
                                    (mail "m1" " Foo@Bar.com") st0)))) = false.
Proof. repeat split; vm_compute; reflexivity. Qed.

(** ** Reply dispatch *)

(** C4: for payloads [A; B; C] whose second delivery throws, the deliveries
    run in order A, B, C, each on the state the previous one left; B's
    failure is logged by [onError] with B's kind, C is still delivered, and
    the dispatch itself returns normally. *)
Theorem dispatch_ordered_isolated (dlv : ReplyPayload -> M unit) A B C s
    rA wA s1 errB wB s2 rC wC s3 :
  dlv A s = (rA, wA, s1) -> dlv B s1 = (Throw errB, wB, s2) -> dlv C s2 = (rC, wC, s3) ->
  dispatchPayloads dlv onError [A; B; C] s =
  (Ok tt, app wA (app (failure_log rA A) (app wB (app (failure_log (Throw errB) B)
                                                   (app wC (failure_log rC C))))), s3).
Proof.
  intros HA HB HC. simpl. unfold bind, catch, ret.
  rewrite HA. destruct rA as [[]|eA]; unfold onError, log, emit; simpl; rewrite HB; simpl;
    rewrite HC; destruct rC as [[]|eC]; simpl; rewrite ?app_nil_r, <- ?app_assoc; reflexivity.
Qed.

Lemma dispatch_ordered_isolated_witness :
  dispatchPayloads (deliver env_second_fails (mail "m1" "a@b.com")) onError
    [{| text := Some "A"; kind := Block |}; {| text := Some "B"; kind := Block |};
     {| text := Some "C"; kind := Final |}] st0
  = (Ok tt, [EReplyToMail "m1" "A"; EReplyToMail "m1" "B";
             ELog Error ("microsoft365 block reply failed: " ++ GRAPH_ERROR);
             EReplyToMail "m1" "C"],
     {| requests := []; nextCode := 0; sends := 3 |}).
Proof.
  rewrite (dispatch_ordered_isolated (deliver env_second_fails (mail "m1" "a@b.com"))
             {| text := Some "A"; kind := Block |} {| text := Some "B"; kind := Block |}
             {| text := Some "C"; kind := Final |} st0
             (Ok tt) [EReplyToMail "m1" "A"] {| requests := []; nextCode := 0; sends := 1 |}
             GRAPH_ERROR [EReplyToMail "m1" "B"] {| requests := []; nextCode := 0; sends := 2 |}
             (Ok tt) [EReplyToMail "m1" "C"] {| requests := []; nextCode := 0; sends := 3 |});
    reflexivity.
Defined.

(** * Further properties of the plugin hooks *)

(** ** Normalized strings *)

Lemma trim_idem s : trim (trim s) = trim s.
Proof.
  unfold trim. rewrite list_ascii_of_string_of_list_ascii.
  fold (trim_list (list_ascii_of_string s)). fold (trim_list (trim_list (list_ascii_of_string s))).
  rewrite trim_list_idem. reflexivity.
Qed.

Lemma toLowerCase_idem s : toLowerCase (toLowerCase s) = toLowerCase s.
Proof.
  unfold toLowerCase. rewrite list_ascii_of_string_of_list_ascii, map_map.
  f_equal. apply map_ext. apply js_lower_char_idem.
Qed.

Lemma lower_trim_comm s : toLowerCase (trim s) = trim (toLowerCase s).
Proof.
  rewrite normalize_entry_list. unfold trim, toLowerCase.
  rewrite list_ascii_of_string_of_list_ascii.
  fold (trim_list (map js_lower_char (list_ascii_of_string s))).
  rewrite trim_list_map_lower. reflexivity.
Qed.

Lemma normal_trim_of_lower y : toLowerCase y = y -> normal (trim y).
Proof.
  intros Hy. split; [apply trim_idem|]. rewrite lower_trim_comm, Hy. reflexivity.
Qed.

Lemma normal_entry s : normal (toLowerCase (trim s)).
Proof.
  split.
  - rewrite lower_trim_comm, trim_idem, <- lower_trim_comm. reflexivity.
  - apply toLowerCase_idem.
Qed.

Lemma toLowerCase_cons a r :
  toLowerCase (String a r) = String (js_lower_char a) (toLowerCase r).
Proof. reflexivity. Qed.

Lemma str_drop_lower n x :
  toLowerCase x = x -> toLowerCase (str_drop n x) = str_drop n x.
Proof.
  revert x; induction n as [|n IH]; intros x Hx; [exact Hx|].
  destruct x as [|a r]; [reflexivity|]. simpl.
  rewrite toLowerCase_cons in Hx. injection Hx as _ Hr. apply IH, Hr.
Qed.

(** ** Target and allow-list normalization hooks *)

(** [normalizeTarget] only returns trimmed, lower-cased targets, and on
    every raw target it gives the same answer as on the raw target's
    trimmed, lower-cased form. *)
Theorem normalizeTarget_normal raw :
  (forall t, normalizeTarget raw = Some t -> normal t)
  /\ normalizeTarget (toLowerCase (trim raw)) = normalizeTarget raw.
Proof.
  split.
  - intros t H. unfold normalizeTarget in H.
    destruct (normal_entry raw) as [Ht Hl].
    assert (Hs : forall y, Some y = Some t -> normal y -> normal t)
      by (intros y Hy; injection Hy as ->; auto).
    destruct (String.prefix "email:" _); [|destruct (String.prefix "mailto:" _);
                                         [|destruct (includes _ "@")]];
      try discriminate H; apply (Hs _ H).
    + apply normal_trim_of_lower, str_drop_lower, Hl.
    + apply normal_trim_of_lower, str_drop_lower, Hl.
    + split; assumption.
  - unfold normalizeTarget. rewrite normalize_entry_idem. reflexivity.
Qed.

Lemma normalizeTarget_normal_witness :
  normalizeTarget "  MailTo: Bob@Example.COM " = Some "bob@example.com"
  /\ normal "bob@example.com".
Proof.
  split; [reflexivity|].
  exact (proj1 (normalizeTarget_normal "  MailTo: Bob@Example.COM ") "bob@example.com" eq_refl).
Defined.

(** [formatAllowFrom] yields non-empty, trimmed, lower-cased entries, is the
    same list the gate builds from the configured allow-list, and is
    idempotent. *)
Theorem formatAllowFrom_normal l :
  formatAllowFrom l = normalizeList l
  /\ formatAllowFrom (formatAllowFrom l) = formatAllowFrom l
  /\ (forall x, In x (formatAllowFrom l) -> x <> EmptyString /\ normal x).
Proof.
  split; [reflexivity|]. split; [apply normalizeList_idem|].
  intros x Hx. apply normalizeList_In in Hx as (r & _ & -> & Hne).
  split; [exact Hne | apply normal_entry].
Qed.

(** [pairing.normalizeAllowEntry] (lower-case, then trim) agrees with the
    trim-then-lower-case normalization of the allow-lists, and is idempotent. *)
Theorem normalizeAllowEntry_agrees e :
  normalizeAllowEntry e = toLowerCase (trim e)
  /\ normalizeAllowEntry (normalizeAllowEntry e) = normalizeAllowEntry e.
Proof.
  unfold normalizeAllowEntry. split; [symmetry; apply lower_trim_comm|].
  rewrite <- (lower_trim_comm e), toLowerCase_idem, <- lower_trim_comm, trim_idem.
  reflexivity.
Qed.

(** [listPeers] returns user peers drawn, in order, from the formatted
    configured allow-list, each containing the normalized query when one is
    given; a positive limit bounds the count, while an absent, zero or
    negative limit and no query give the whole list. *)
Theorem listPeers_spec m query limit :
  (forall k id, In (k, id) (listPeers m query limit) ->
      k = "user" /\ In id (formatAllowFrom (configAllowFromRaw m))
      /\ forall q, query = Some q -> truthy (toLowerCase (trim q)) = true ->
                   includes id (toLowerCase (trim q)) = true)
  /\ (forall n, limit = Some n -> (0 < n)%Z -> length (listPeers m query limit) <= Z.to_nat n)
  /\ (query = None -> (forall n, limit = Some n -> (n <= 0)%Z) ->
      map snd (listPeers m query limit) = formatAllowFrom (configAllowFromRaw m)).
Proof.
  unfold listPeers. set (emails := filter _ _).
  assert (He : forall id, In id emails ->
             In id (formatAllowFrom (configAllowFromRaw m))
             /\ forall q, query = Some q -> truthy (toLowerCase (trim q)) = true ->
                          includes id (toLowerCase (trim q)) = true).
  { intros id Hid. unfold emails in Hid. apply filter_In in Hid as [Hin Hq].
    split; [exact Hin|]. intros q -> Ht. rewrite Ht in Hq. exact Hq. }
  split; [|split].
  - intros k id Hin. apply in_map_iff in Hin as (x & Hx & Hin).
    injection Hx as <- <-. split; [reflexivity|].
    apply He. destruct limit as [n|]; [destruct (0 <? n)%Z|]; auto.
    revert Hin. generalize (Z.to_nat n) as j. generalize emails as l. clear.
    induction l as [|a l IH]; intros [|k] H; simpl in *; try tauto.
    destruct H as [H|H]; [left; exact H | right; exact (IH k H)].
  - intros n -> Hn. rewrite length_map. apply Z.ltb_lt in Hn. rewrite Hn.
    rewrite length_firstn. lia.
  - intros -> Hl. rewrite map_map. simpl.
    assert (Hs : match limit with
                 | Some n => if (0 <? n)%Z then firstn (Z.to_nat n) emails else emails
                 | None => emails end = emails).
    { destruct limit as [n|]; [|reflexivity].
      specialize (Hl n eq_refl). destruct (Z.ltb_spec 0 n); [lia|reflexivity]. }
    rewrite Hs, map_id. unfold emails, formatAllowFrom. clear.
    generalize (filter truthy (map (fun email => toLowerCase (trim email)) (configAllowFromRaw m)))
      as l. intros l.
    induction l as [|a l IH]; simpl in *; [reflexivity|]. f_equal; exact IH.
Qed.

Lemma listPeers_spec_witness :
  map snd (listPeers (cfg_of [" A@X.com"; " "; "b@y.org"] None) None (Some (-1)%Z))
  = ["a@x.com"; "b@y.org"].
Proof.
  set (m := cfg_of [" A@X.com"; " "; "b@y.org"] None).
  rewrite (proj2 (proj2 (listPeers_spec m None (Some (-1)%Z))) eq_refl).
  - reflexivity.
  - intros n Hn. injection Hn as <-. lia.
Defined.

(** ** Outbound target resolution *)

(** A resolved outbound target is never the wildcard, never empty, and
    trimmed and lower-cased; an explicit target whose normalized form has no
    ["@"] is ignored exactly as an absent one, falling back to the first
    non-wildcard allow-list entry. *)
Theorem resolveTarget_spec to allowFrom :
  (forall t, resolveTarget to allowFrom = TargetOk t ->
             t <> "*" /\ truthy t = true /\ normal t)
  /\ (forall t, to = Some t -> includes (toLowerCase (trim t)) "@" = false ->
                resolveTarget to allowFrom = resolveTarget None allowFrom).
Proof.
  split.
  - intros t. unfold resolveTarget.
    destruct (truthy _ && includes _ "@") eqn:Ht.
    + intros H. injection H as <-. apply andb_true_iff in Ht as [Ht Hi].
      split; [intros E; rewrite E in Hi; discriminate|]. split; [exact Ht|].
      destruct to as [x|]; [apply normal_entry|discriminate].
    + destruct (filter _ _) as [|x l] eqn:Hl; [discriminate|].
      intros H. injection H as <-.
      assert (Hin : In x (filter (fun entry => negb (String.eqb entry "*"))
                            (normalizeList (match allowFrom with Some l => l | None => [] end))))
        by (unfold normalizeList; rewrite Hl; left; reflexivity).
      apply filter_In in Hin as [Hin Hs].
      apply normalizeList_In in Hin as (r & _ & Hr & Hne).
      split; [intros E; rewrite E in Hs; discriminate|].
      split; [unfold truthy; destruct (String.eqb x EmptyString) eqn:E;
              [apply String.eqb_eq in E; contradiction|reflexivity]|].
      rewrite Hr; apply normal_entry.
  - intros t -> Hi. unfold resolveTarget. rewrite Hi, andb_false_r. reflexivity.
Qed.

Lemma resolveTarget_spec_witness :
  resolveTarget (Some " Bob ") (Some [" * "; " Ann@X.com"]) = TargetOk "ann@x.com"
  /\ resolveTarget (Some " Bob ") (Some [" * "; " Ann@X.com"])
     = resolveTarget None (Some [" * "; " Ann@X.com"])
  /\ normal "ann@x.com".
Proof.
  split; [reflexivity|]. split.
  - exact (proj2 (resolveTarget_spec (Some " Bob ") (Some [" * "; " Ann@X.com"])) " Bob "
             eq_refl eq_refl).
  - exact (proj2 (proj2 (proj1 (resolveTarget_spec (Some " Bob ") (Some [" * "; " Ann@X.com"]))
             "ann@x.com" eq_refl))).
Defined.

(** ** Security warnings and the gate *)

(** Not warned about: under [allowlist] (or [pairing]) a configured entry
    that normalizes to ["*"] admits every sender to the agent, with no pairing
    request and no drop, while [collectWarnings] reports nothing. *)
Theorem wildcard_admits_all_unwarned env m msg e s r :
  resolveDmPolicy m <> Open -> In r (configAllowFromRaw m) -> toLowerCase (trim r) = "*" ->
  fromEmailOf msg = Some e -> truthy e = true ->
  collectWarnings m = []
  /\ agentInvoked (trace (handleIncomingMail env m msg s)) = true
  /\ upserts (trace (handleIncomingMail env m msg s)) = []
  /\ forallb (fun x => negb (is_drop x)) (trace (handleIncomingMail env m msg s)) = true.
Proof.
  intros Hp Hr Hw H1 H2.
  split; [unfold collectWarnings; destruct (resolveDmPolicy m); congruence|].
  assert (Hg : senderAllowed (effectiveAllowFromOf m (env_store env)) e = true).
  { apply senderAllowed_spec. right. unfold effectiveAllowFromOf, resolveAllowFrom.
    apply in_or_app. left. apply normalizeList_In. exists r.
    split; [exact Hr|]. split; [symmetry; exact Hw|discriminate]. }
  destruct (allow_shape env m msg e s H1 H2 (or_intror Hg)) as (w & s' & Hh & Ha & Hn).
  rewrite Hh. unfold trace. split; [exact Ha|].
  split.
  - simpl. clear - Hn. induction w as [|x w IH]; [reflexivity|].
    simpl in Hn. apply andb_true_iff in Hn as [Hx Hn].
    destruct x; simpl in Hx |- *; try discriminate; auto.
  - simpl. clear - Hn. induction w as [|x w IH]; [reflexivity|].
    simpl in Hn |- *. apply andb_true_iff in Hn as [Hx Hn].
    rewrite IH by exact Hn. destruct x; simpl in Hx |- *; try discriminate; reflexivity.
Qed.

Lemma wildcard_admits_all_unwarned_witness :
  collectWarnings (cfg_of [" * "] (Some Allowlist)) = []
  /\ agentInvoked (trace (handleIncomingMail env0 (cfg_of [" * "] (Some Allowlist))
                          (mail "m1" "eve@evil.test") st0)) = true.
Proof.
  destruct (wildcard_admits_all_unwarned env0 (cfg_of [" * "] (Some Allowlist))
              (mail "m1" "eve@evil.test") "eve@evil.test" st0 " * ")
    as (H1 & H2 & _).
  - discriminate.
  - left; reflexivity.
  - reflexivity.
  - reflexivity.
  - reflexivity.
  - split; [exact H1|exact H2].
Defined.

(** ** The handler over a sequence of events *)

Lemma handleAll_cons_run env m msg rest s :
  handleAll env m (msg :: rest) s =
  let '(_, w, s1) := handleIncomingMail env m msg s in
  let '(r2, w2, s2) := handleAll env m rest s1 in (r2, app w w2, s2).
Proof.
  simpl. unfold bind. pose proof (handle_ok env m msg s) as Hok.
  destruct (handleIncomingMail env m msg s) as [[r w] s1]. simpl in Hok. subst r.
  reflexivity.
Qed.

(** Processing a batch of events never throws: every failure of a Graph call,
    of the store or of a delivery is caught inside [handleIncomingMail], so
    one event never aborts the ones after it. *)
Theorem handleAll_never_throws env m msgs s :
  result (handleAll env m msgs s) = Ok tt.
Proof.
  revert s; induction msgs as [|msg rest IH]; intros s; [reflexivity|].
  rewrite handleAll_cons_run.
  destruct (handleIncomingMail env m msg s) as [[r w] s1].
  specialize (IH s1). destruct (handleAll env m rest s1) as [[r2 w2] s2]. exact IH.
Qed.

(** ** The admitted path *)

Lemma deliver_requests env msg p s :
  requests (final (deliver env msg p s)) = requests s.
Proof.
  unfold deliver, log, emit, ret, replyToMail.
  destruct (negb (truthy _)); [reflexivity|].
  destruct (negb (env_creds env)); [reflexivity|].
  destruct (env_sendFails env (sends s)); reflexivity.
Qed.

Lemma dispatch_requests env msg ps s :
  requests (final (dispatchPayloads (deliver env msg) onError ps s)) = requests s.
Proof.
  revert s; induction ps as [|p ps IH]; intros s; [reflexivity|]. simpl.
  unfold bind, catch. pose proof (deliver_requests env msg p s) as Hd.
  destruct (deliver env msg p s) as [[r w] s1]. simpl in Hd.
  destruct r as [[]|err].
  - specialize (IH s1). destruct (dispatchPayloads _ _ ps s1) as [[r2 w2] s2].
    simpl in *. congruence.
  - unfold onError at 1, log, emit. cbv beta iota.
    specialize (IH s1). destruct (dispatchPayloads _ _ ps s1) as [[r2 w2] s2].
    simpl in *. congruence.
Qed.

(** An admitted message: mark it as read when credentials are set (a
    failure only logs a warning), then record the inbound session (a failed
    write only logs an error), then invoke the agent on that session, then
    the deliveries; the pairing store is left as it was. *)
Theorem admit_order env msg e s :
  exists wd s', admitAndDispatch env msg e s =
    (Ok tt,
     app (if env_creds env
          then EMarkAsRead (id msg)
               :: (if env_markReadFails env
                   then [ELog Warn ("microsoft365: failed to mark message as read: " ++ GRAPH_ERROR)]
                   else [])
          else [])
       (ERecordSession (env_sessionKey env e)
        :: app (if env_recordFails env
                then [ELog Error ("microsoft365: failed updating session meta: " ++ SESSION_ERROR)]
                else [])
             (EAgentDispatch (env_sessionKey env e) :: wd)),
     s')
    /\ dispatchPayloads (deliver env msg) onError (env_agentReply env) s = (Ok tt, wd, s')
    /\ forallb delivery_effect wd = true
    /\ requests s' = requests s.
Proof.
  destruct (dispatch_shape env msg (env_agentReply env) s) as (wd & sd & Hd & Hwd).
  pose proof (dispatch_requests env msg (env_agentReply env) s) as Hr.
  rewrite Hd in Hr. simpl in Hr.
  exists wd, sd. split; [|split; [exact Hd|split; assumption]].
  unfold admitAndDispatch, dispatchReplyWithBufferedBlockDispatcher,
    recordInboundSession, markAsRead, bind, catch, emit, log, ret, throw.
  destruct (env_creds env); [destruct (env_markReadFails env)|];
    destruct (env_recordFails env); simpl; rewrite Hd; reflexivity.
Qed.

Lemma admit_order_witness :
  exists wd s', admitAndDispatch env0 (mail "m1" "a@x.com") "a@x.com" st0 =
    (Ok tt, EMarkAsRead "m1" :: ERecordSession "agent:main:microsoft365:dm:a@x.com"
            :: EAgentDispatch "agent:main:microsoft365:dm:a@x.com" :: wd, s').
Proof.
  destruct (admit_order env0 (mail "m1" "a@x.com") "a@x.com" st0) as (wd & s' & H & _).
  exists wd, s'. exact H.
Defined.

Lemma admitted_observe env m msg e s :
  fromEmailOf msg = Some e -> truthy e = true ->
  resolveDmPolicy m = Open \/ senderAllowed (effectiveAllowFromOf m (env_store env)) e = true ->
  agentInvoked (trace (handleIncomingMail env m msg s)) = true
  /\ upserts (trace (handleIncomingMail env m msg s)) = []
  /\ forallb (fun x => negb (is_drop x)) (trace (handleIncomingMail env m msg s)) = true.
Proof.
  intros H1 H2 Hg.
  destruct (allow_shape env m msg e s H1 H2 Hg) as (w & s' & Hh & Ha & Hn).
  rewrite Hh. unfold trace. split; [exact Ha|]. split.
  - simpl. clear - Hn. induction w as [|x w IH]; [reflexivity|].
    simpl in Hn. apply andb_true_iff in Hn as [Hx Hn].
    destruct x; simpl in Hx |- *; try discriminate; auto.
  - simpl. clear - Hn. induction w as [|x w IH]; [reflexivity|].
    simpl in Hn |- *. apply andb_true_iff in Hn as [Hx Hn].
    rewrite IH by exact Hn. destruct x; simpl in Hx |- *; try discriminate; reflexivity.
Qed.

(** Whatever the policy, a sender equal to the trimmed, lower-cased form of
    a configured entry, or of an entry of a store that resolves, reaches the
    agent, with no pairing request and no drop. *)
Theorem listed_sender_admitted env m msg e s r :
  fromEmailOf msg = Some e -> truthy e = true ->
  In r (configAllowFromRaw m) \/ (exists l, env_store env = Some l /\ In r l) ->
  toLowerCase (trim r) = e ->
  agentInvoked (trace (handleIncomingMail env m msg s)) = true
  /\ upserts (trace (handleIncomingMail env m msg s)) = [].
Proof.
  intros H1 H2 Hr He.
  assert (Hg : senderAllowed (effectiveAllowFromOf m (env_store env)) e = true).
  { apply senderAllowed_spec. left. unfold effectiveAllowFromOf, resolveAllowFrom.
    apply in_or_app.
    assert (Hne : e <> EmptyString)
      by (intros E; rewrite E in H2; discriminate).
    destruct Hr as [Hr|(l & Hs & Hr)].
    - left. apply normalizeList_In. exists r. auto.
    - right. rewrite Hs. apply normalizeList_In. exists r. auto. }
  destruct (admitted_observe env m msg e s H1 H2 (or_intror Hg)) as (Ha & Hu & _).
  split; assumption.
Qed.

Lemma listed_sender_admitted_witness :
  agentInvoked (trace (handleIncomingMail env0 (cfg_of [" BOB@x.com "] (Some Allowlist))
                         (mail "m1" "bob@x.com") st0)) = true.
Proof.
  apply (listed_sender_admitted env0 (cfg_of [" BOB@x.com "] (Some Allowlist))
           (mail "m1" "bob@x.com") "bob@x.com" st0 " BOB@x.com ").
  - reflexivity.
  - reflexivity.
  - left; left; reflexivity.
  - reflexivity.
Defined.

(** ** Growth of the pairing store *)

Lemma challenge_requests env msg e s :
  exists added, requests (final (pairingChallenge env msg e s)) = app (requests s) added
    /\ length added <= 1
    /\ forall r, In r added -> pr_channel r = CHANNEL_ID /\ pr_id r = e.
Proof.
  unfold pairingChallenge, upsertPairingRequest, bind, catch, log, emit, ret, replyToMail.
  destruct (find_request CHANNEL_ID e (requests s)) as [c|].
  - exists []. simpl. rewrite app_nil_r. split; [reflexivity|]. split; [lia|intros r []].
  - eexists [_]. split.
    + destruct (env_creds env); [destruct (env_sendFails env _)|]; reflexivity.
    + split; [simpl; lia|]. intros r [<-|[]]. split; reflexivity.
Qed.

(** One event adds at most one pairing request, only under [pairing], and
    only for the event's own sender on this channel; the existing requests
    are kept as they were. *)
Lemma handle_requests env m msg s :
  exists added, requests (final (handleIncomingMail env m msg s)) = app (requests s) added
    /\ length added <= 1
    /\ (resolveDmPolicy m <> Pairing -> added = [])
    /\ forall r, In r added -> pr_channel r = CHANNEL_ID /\ fromEmailOf msg = Some (pr_id r).
Proof.
  assert (Hnone : forall s', requests s' = requests s -> exists added, requests s' = app (requests s) added
    /\ length added <= 1 /\ (resolveDmPolicy m <> Pairing -> added = [])
    /\ forall r, In r added -> pr_channel r = CHANNEL_ID /\ fromEmailOf msg = Some (pr_id r)).
  { intros s' Hs. exists []. rewrite app_nil_r. split; [exact Hs|]. split; [simpl; lia|].
    split; [reflexivity|]. intros x []. }
  destruct (fromEmailOf msg) as [e|] eqn:H1;
    [|unfold handleIncomingMail; rewrite H1; apply Hnone; reflexivity].
  destruct (truthy e) eqn:H2;
    [|unfold handleIncomingMail; rewrite H1, H2; apply Hnone; reflexivity].
  rewrite (handle_sender env m msg e s H1 H2). unfold log. rewrite !bind_emit_run.
  destruct (admit_order env msg e s) as (wd & sd & Ha & _ & _ & Hr).
  destruct (resolveDmPolicy m) eqn:Hm.
  - rewrite Ha. apply Hnone, Hr.
  - destruct (senderAllowed _ e); [rewrite Ha; apply Hnone, Hr|].
    destruct (challenge_requests env msg e s) as (added & Ha' & Hl & Hin).
    unfold bind at 1. unfold logInboundDrop, emit.
    destruct (pairingChallenge env msg e s) as [[r w] s1]. simpl in Ha'.
    destruct r; simpl; exists added; (split; [exact Ha'|]); (split; [exact Hl|]);
      (split; [intros Hp; contradiction Hp; reflexivity|]);
      intros x Hx; destruct (Hin x Hx) as [Hc He]; rewrite He; auto.
  - destruct (senderAllowed _ e); [rewrite Ha; apply Hnone, Hr|].
    apply Hnone. reflexivity.
Qed.

(** Over a batch of events the pairing store only grows at its end, by at
    most one request per event, each for the sender of one of the events on
    this channel; under [open] or [allowlist] it is left unchanged. *)
Theorem handleAll_requests env m msgs s :
  exists added, requests (final (handleAll env m msgs s)) = app (requests s) added
    /\ length added <= length msgs
    /\ (resolveDmPolicy m <> Pairing -> added = [])
    /\ forall r, In r added -> pr_channel r = CHANNEL_ID
                              /\ exists msg, In msg msgs /\ fromEmailOf msg = Some (pr_id r).
Proof.
  revert s; induction msgs as [|msg rest IH]; intros s.
  - exists []. simpl. rewrite app_nil_r. split; [reflexivity|]. split; [lia|].
    split; [reflexivity|]. intros x [].
  - rewrite handleAll_cons_run.
    destruct (handle_requests env m msg s) as (a1 & H1 & L1 & P1 & I1).
    destruct (handleIncomingMail env m msg s) as [[r0 w] s1]. simpl in H1.
    destruct (IH s1) as (a2 & H2 & L2 & P2 & I2).
    destruct (handleAll env m rest s1) as [[r2 w2] s2]. simpl in H2 |- *.
    exists (app a1 a2). split; [rewrite H2, H1, app_assoc; reflexivity|].
    split; [rewrite length_app; simpl; lia|].
    split; [intros Hp; rewrite (P1 Hp), (P2 Hp); reflexivity|].
    intros x Hx. apply in_app_or in Hx as [Hx|Hx].
    + destruct (I1 x Hx) as [Hc He]. split; [exact Hc|]. exists msg. split; [left; reflexivity|exact He].
    + destruct (I2 x Hx) as (Hc & msg' & Hin & He). split; [exact Hc|].
      exists msg'. split; [right; exact Hin|exact He].
Qed.

Lemma handleAll_requests_witness :
  requests (final (handleAll env0 (cfg_of [] (Some Allowlist))
                     [mail "m1" "a@x.com"; mail "m2" "b@y.org"] st0)) = [].
Proof.
  destruct (handleAll_requests env0 (cfg_of [] (Some Allowlist))
              [mail "m1" "a@x.com"; mail "m2" "b@y.org"] st0) as (added & H & _ & P & _).
  rewrite H, (P ltac:(discriminate)). reflexivity.
Defined.

(** ** Configuration edits *)

Lemma obj_get_set_same k v o : obj_get k (obj_set k v o) = Some v.
Proof.
  induction o as [|[k' v'] r IH]; simpl; [rewrite String.eqb_refl; reflexivity|].
  destruct (String.eqb k' k) eqn:E; simpl; [rewrite String.eqb_refl; reflexivity|].
  rewrite E. exact IH.
Qed.

Lemma obj_get_set_other k k' v o :
  k' <> k -> obj_get k' (obj_set k v o) = obj_get k' o.
Proof.
  intros Hk. assert (E1 : String.eqb k k' = false) by (apply String.eqb_neq; congruence).
  induction o as [|[k'' v''] r IH]; simpl; [rewrite E1; reflexivity|].
  destruct (String.eqb k'' k) eqn:E; simpl.
  - apply String.eqb_eq in E. subst k''. rewrite E1. reflexivity.
  - destruct (String.eqb k'' k'); [reflexivity|exact IH].
Qed.

Lemma obj_set_set k v1 v2 o : obj_set k v2 (obj_set k v1 o) = obj_set k v2 o.
Proof.
  induction o as [|[k' v'] r IH]; simpl; [rewrite String.eqb_refl; reflexivity|].
  destruct (String.eqb k' k) eqn:E; simpl; [rewrite String.eqb_refl; reflexivity|].
  rewrite E, IH. reflexivity.
Qed.

Lemma obj_get_delete k k' o :
  obj_get k' (obj_delete k o) = if String.eqb k' k then None else obj_get k' o.
Proof.
  unfold obj_delete.
  induction o as [|[k'' v''] r IH]; simpl; [destruct (String.eqb k' k); reflexivity|].
  destruct (String.eqb k'' k) eqn:E; simpl.
  - rewrite IH. apply String.eqb_eq in E. subst k''.
    destruct (String.eqb k' k) eqn:E'; [reflexivity|].
    rewrite String.eqb_sym, E'. reflexivity.
  - rewrite IH. destruct (String.eqb k'' k') eqn:E'; [|reflexivity].
    apply String.eqb_eq in E'. subst k''. rewrite E. reflexivity.
Qed.

(** [setAccountEnabled] makes [resolveAccount] report exactly the requested
    [enabled], keeps every other top-level key, every other channel and every
    other field of the [microsoft365] entry, and a second call overrides the
    first. *)
Theorem setAccountEnabled_spec cfg b :
  account_enabled (setAccountEnabled cfg b) = b
  /\ (forall k, k <> "channels" -> obj_get k (setAccountEnabled cfg b) = obj_get k cfg)
  /\ (forall c, c <> "microsoft365" -> channel_entry (setAccountEnabled cfg b) c = channel_entry cfg c)
  /\ (forall f, f <> "enabled" ->
        obj_get f (spread (channel_entry (setAccountEnabled cfg b) "microsoft365"))
        = obj_get f (spread (channel_entry cfg "microsoft365")))
  /\ (forall b', setAccountEnabled (setAccountEnabled cfg b') b = setAccountEnabled cfg b).
Proof.
  assert (Hch : channel_entry (setAccountEnabled cfg b) "microsoft365"
                = Some (JObj (obj_set "enabled" (JBool b) (spread (channel_entry cfg "microsoft365"))))).
  { unfold channel_entry at 1, setAccountEnabled. rewrite !obj_get_set_same. reflexivity. }
  split; [|split; [|split; [|split]]].
  - unfold account_enabled. rewrite Hch, obj_get_set_same. destruct b; reflexivity.
  - intros k Hk. unfold setAccountEnabled. apply obj_get_set_other. exact Hk.
  - intros c Hc. unfold channel_entry at 1, setAccountEnabled.
    rewrite obj_get_set_same, obj_get_set_other by exact Hc.
    unfold channel_entry. destruct (obj_get "channels" cfg) as [[]|]; reflexivity.
  - intros f Hf. rewrite Hch. simpl. apply obj_get_set_other. exact Hf.
  - intros b'. unfold setAccountEnabled at 1.
    assert (Hc2 : channel_entry (setAccountEnabled cfg b') "microsoft365"
                  = Some (JObj (obj_set "enabled" (JBool b') (spread (channel_entry cfg "microsoft365"))))).
    { unfold channel_entry at 1, setAccountEnabled. rewrite !obj_get_set_same. reflexivity. }
    rewrite Hc2. simpl spread. rewrite obj_set_set.
    unfold setAccountEnabled. rewrite obj_get_set_same. simpl spread.
    rewrite obj_set_set, obj_set_set. reflexivity.
Qed.

Lemma setAccountEnabled_spec_witness :
  obj_get "agents" (setAccountEnabled [("agents", JOther 1); ("channels", JOther 2)] false)
  = Some (JOther 1).
Proof.
  exact (proj1 (proj2 (setAccountEnabled_spec [("agents", JOther 1); ("channels", JOther 2)] false))
           "agents" ltac:(discriminate)).
Defined.

(** [deleteAccount] removes the [microsoft365] entry, so the account reads
    as enabled again; it keeps every other channel and every other top-level
    key, and drops the [channels] key exactly when no other channel is
    left. *)
Theorem deleteAccount_spec cfg :
  channel_entry (deleteAccount cfg) "microsoft365" = None
  /\ account_enabled (deleteAccount cfg) = true
  /\ (forall c, c <> "microsoft365" -> channel_entry (deleteAccount cfg) c = channel_entry cfg c)
  /\ (forall k, k <> "channels" -> obj_get k (deleteAccount cfg) = obj_get k cfg)
  /\ (obj_get "channels" (deleteAccount cfg) = None
      <-> obj_delete "microsoft365" (spread (obj_get "channels" cfg)) = []).
Proof.
  set (nc := obj_delete "microsoft365" (spread (obj_get "channels" cfg))).
  assert (Hget : obj_get "channels" (deleteAccount cfg)
                 = match nc with [] => None | _ => Some (JObj nc) end).
  { unfold deleteAccount. fold nc. destruct nc as [|p l] eqn:E; simpl.
    - rewrite obj_get_delete. reflexivity.
    - apply obj_get_set_same. }
  assert (Hent : forall c, channel_entry (deleteAccount cfg) c = obj_get c nc).
  { intros c. unfold channel_entry at 1. rewrite Hget. destruct nc; reflexivity. }
  assert (Hm : obj_get "microsoft365" nc = None)
    by (unfold nc; rewrite obj_get_delete, String.eqb_refl; reflexivity).
  split; [|split; [|split; [|split]]].
  - rewrite Hent. exact Hm.
  - unfold account_enabled. rewrite Hent, Hm. reflexivity.
  - intros c Hc. rewrite Hent. unfold nc. rewrite obj_get_delete.
    destruct (String.eqb c "microsoft365") eqn:E; [apply String.eqb_eq in E; contradiction|].
    unfold channel_entry. destruct (obj_get "channels" cfg) as [[]|]; reflexivity.
  - intros k Hk. unfold deleteAccount. fold nc. destruct (0 <? length nc).
    + apply obj_get_set_other. exact Hk.
    + rewrite obj_get_delete.
      destruct (String.eqb k "channels") eqn:E; [apply String.eqb_eq in E; contradiction|].
      reflexivity.
  - rewrite Hget. destruct nc; split; (reflexivity || discriminate).
Qed.

Lemma deleteAccount_spec_witness :
  channel_entry (deleteAccount [("channels", JObj [("microsoft365", JBool true); ("slack", JOther 3)])])
    "slack" = Some (JOther 3).
Proof.
  exact (proj1 (proj2 (proj2 (deleteAccount_spec
           [("channels", JObj [("microsoft365", JBool true); ("slack", JOther 3)])])))
           "slack" ltac:(discriminate)).
Defined.
